(** * KgBites: the shared order service (orderService.js)

    A shallow embedding of [class OrderService]: the browser-side store
    of order records that both portals share, and the operations that
    create, look up, deliver, consume and reconcile an order.

    Modelling conventions.
    - An order is a JavaScript object.  Every property the service reads
      or writes is a field of type [option _] ([None]: the property is
      absent); the remaining payload properties travel in [other].
    - [localStorage] and [sessionStorage] map a key to a stored string.
      The strings are only ever produced by [JSON.stringify] of an order
      map and consumed by [JSON.parse], so a slot holds either a parsed
      order map or text that does not parse (the read is then skipped by
      the [catch]).  Writes to storage succeed.
    - Instants are milliseconds since the epoch ([Date.now()], and the ISO
      strings of [toISOString], which [new Date] reads back exactly).  One
      call of a method runs at one instant [now]: all of its clock reads
      return the same value.
    - [console] output and [BroadcastChannel] messages have no listener in
      the service and are left out. *)

From Stdlib Require Import ZArith String Ascii List.
From Stdlib Require Import DecimalString DecimalPos DecimalFacts.
From stdpp Require Import base option list strings gmap fin_maps.

Local Open Scope string_scope.
Local Open Scope Z_scope.

(** ** Data model *)

(** A line item of a counter group. *)
Record Item := mkItem {
  item_id : Z;
  item_name : string;
  quantity : Z;
  delivered : bool
}.

(** An order record. *)
Record Order := mkOrder {
  order_code : option string;
  items_by_counter : option (gmap string (list Item));
  counters_involved : option (list string);
  counters_completed : option (list string);
  is_complete : option bool;
  otp_status : option string;
  generated_by : option string;
  created_at : option Z;
  updated_at : option Z;
  expires_at : option Z;
  used_at : option Z;
  other : gmap string string
}.

(** The object [{}]. *)
Definition emptyObj : Order :=
  mkOrder None None None None None None None None None None None ∅.

(** [{ ...a, ...b }]: the properties of [b] win. *)
Definition spread (a b : Order) : Order :=
  {| order_code := order_code b ∪ order_code a;
     items_by_counter := items_by_counter b ∪ items_by_counter a;
     counters_involved := counters_involved b ∪ counters_involved a;
     counters_completed := counters_completed b ∪ counters_completed a;
     is_complete := is_complete b ∪ is_complete a;
     otp_status := otp_status b ∪ otp_status a;
     generated_by := generated_by b ∪ generated_by a;
     created_at := created_at b ∪ created_at a;
     updated_at := updated_at b ∪ updated_at a;
     expires_at := expires_at b ∪ expires_at a;
     used_at := used_at b ∪ used_at a;
     other := other b ∪ other a |}.

(** Property assignments [o.f = v]. *)
Definition set_items_by_counter (v : gmap string (list Item)) (o : Order) : Order :=
  mkOrder (order_code o) (Some v) (counters_involved o) (counters_completed o)
    (is_complete o) (otp_status o) (generated_by o) (created_at o)
    (updated_at o) (expires_at o) (used_at o) (other o).

Definition set_counters_completed (v : list string) (o : Order) : Order :=
  mkOrder (order_code o) (items_by_counter o) (counters_involved o) (Some v)
    (is_complete o) (otp_status o) (generated_by o) (created_at o)
    (updated_at o) (expires_at o) (used_at o) (other o).

Definition set_is_complete (v : bool) (o : Order) : Order :=
  mkOrder (order_code o) (items_by_counter o) (counters_involved o)
    (counters_completed o) (Some v) (otp_status o) (generated_by o)
    (created_at o) (updated_at o) (expires_at o) (used_at o) (other o).

Definition set_otp_status (v : string) (o : Order) : Order :=
  mkOrder (order_code o) (items_by_counter o) (counters_involved o)
    (counters_completed o) (is_complete o) (Some v) (generated_by o)
    (created_at o) (updated_at o) (expires_at o) (used_at o) (other o).

Definition set_generated_by (v : string) (o : Order) : Order :=
  mkOrder (order_code o) (items_by_counter o) (counters_involved o)
    (counters_completed o) (is_complete o) (otp_status o) (Some v)
    (created_at o) (updated_at o) (expires_at o) (used_at o) (other o).

Definition set_created_at (v : Z) (o : Order) : Order :=
  mkOrder (order_code o) (items_by_counter o) (counters_involved o)
    (counters_completed o) (is_complete o) (otp_status o) (generated_by o)
    (Some v) (updated_at o) (expires_at o) (used_at o) (other o).

Definition set_updated_at (v : Z) (o : Order) : Order :=
  mkOrder (order_code o) (items_by_counter o) (counters_involved o)
    (counters_completed o) (is_complete o) (otp_status o) (generated_by o)
    (created_at o) (Some v) (expires_at o) (used_at o) (other o).

Definition set_expires_at (v : Z) (o : Order) : Order :=
  mkOrder (order_code o) (items_by_counter o) (counters_involved o)
    (counters_completed o) (is_complete o) (otp_status o) (generated_by o)
    (created_at o) (updated_at o) (Some v) (used_at o) (other o).

Definition set_used_at (v : Z) (o : Order) : Order :=
  mkOrder (order_code o) (items_by_counter o) (counters_involved o)
    (counters_completed o) (is_complete o) (otp_status o) (generated_by o)
    (created_at o) (updated_at o) (expires_at o) (Some v) (other o).

(** Truthiness of an optional string: absent and [''] are falsy. *)
Definition truthy (s : option string) : bool :=
  match s with
  | Some s => negb (bool_decide (s = ""))
  | None => false
  end.

(** [s === lit] for an optional string property. *)
Definition str_is (s : option string) (lit : string) : bool :=
  bool_decide (s = Some lit).

Arguments truthy : simpl never.
Arguments str_is : simpl never.

(** [Object.keys(m)]; the enumeration order is the map's own. *)
Definition Object_keys {A} (m : gmap string A) : list string :=
  (map_to_list m).*1.

(** [24 * 60 * 60 * 1000] *)
Definition DAY_MS : Z := 24 * 60 * 60 * 1000.

(** ** Browser storage *)

Inductive Slot :=
  | Unparsable
  | Parsed (orders : gmap string Order).

Record Storage := mkStorage {
  localStorage : gmap string Slot;
  sessionStorage : gmap string Slot
}.

Definition storageKey : string := "kgbites_orders".

Definition allKeys : list string :=
  [ "kgbites_orders"; "kgbites_shared_orders"; "kgbites_student_orders";
    "kgbites_staff_orders"; "kgbites_cross_port_orders" ].

Definition backupKey : string := "kgbites_orders_backup".

(** One read of a slot inside [getAllOrders]:
    [allOrders = { ...allOrders, ...JSON.parse(data) }], skipped when the
    key is absent or the text does not parse. *)
Definition readSlot (s : option Slot) (allOrders : gmap string Order)
  : gmap string Order :=
  match s with
  | Some (Parsed orders) => orders ∪ allOrders
  | _ => allOrders
  end.

(** The merge of the five local keys, then of the session backup. *)
Definition mergeAll (st : Storage) : gmap string Order :=
  readSlot (sessionStorage st !! backupKey)
    (foldl (λ acc key, readSlot (localStorage st !! key) acc) ∅ allKeys).

(** [order.expires_at && new Date(order.expires_at) < now] *)
Definition isExpired (now : Z) (o : Order) : bool :=
  match expires_at o with
  | Some e => bool_decide (e < now)
  | None => false
  end.

(** The loop that deletes the expired orders. *)
Definition purge (now : Z) (m : gmap string Order) : gmap string Order :=
  filter (λ kv, isExpired now kv.2 = false) m.

(** [allKeys.forEach(key => localStorage.setItem(key, JSON.stringify(orders)))] *)
Definition writeAll (orders : gmap string Order) (ls : gmap string Slot)
  : gmap string Slot :=
  foldl (λ acc key, <[key := Parsed orders]> acc) ls allKeys.

(** The five writes followed by
    [sessionStorage.setItem('kgbites_orders_backup', JSON.stringify(orders))],
    as [saveOrder] and [updateOrder] perform them. *)
Definition writeEverywhere (orders : gmap string Order) (st : Storage)
  : Storage :=
  mkStorage (writeAll orders (localStorage st))
            (<[backupKey := Parsed orders]> (sessionStorage st)).

(** ** The service *)

Definition getAllOrders (now : Z) (st : Storage)
  : gmap string Order * Storage :=
  let allOrders := purge now (mergeAll st) in
  let totalOrders := length (Object_keys allOrders) in
  if bool_decide (0 < totalOrders)%nat
  then (allOrders,
        mkStorage (writeAll allOrders (localStorage st)) (sessionStorage st))
  else (allOrders, st).

(** The property name that [orders[orderData.order_code]] uses. *)
Definition propertyKey (code : option string) : string :=
  default "undefined" code.

(** [{ ...orderData, created_at, updated_at, otp_status: 'active',
      generated_by: window.location.origin, expires_at }] *)
Definition orderWithOTP (now : Z) (origin : string) (orderData : Order)
  : Order :=
  set_expires_at (now + DAY_MS)
    (set_generated_by origin
      (set_otp_status "active"
        (set_updated_at now (set_created_at now orderData)))).

Definition saveOrder (now : Z) (origin : string) (orderData : Order)
    (st : Storage) : bool * Storage :=
  let '(orders, st1) := getAllOrders now st in
  let orders' :=
    <[propertyKey (order_code orderData) := orderWithOTP now origin orderData]>
      orders in
  (true, writeEverywhere orders' st1).

Definition updateOrder (now : Z) (orderCode : string) (updates : Order)
    (st : Storage) : bool * Storage :=
  let '(orders, st1) := getAllOrders now st in
  match orders !! orderCode with
  | Some current =>
      let orders' :=
        <[orderCode := set_updated_at now (spread current updates)]> orders in
      (true, writeEverywhere orders' st1)
  | None => (false, st1)
  end.

(** The upgrade of a record that has no [otp_status]. *)
Definition upgradeLegacy (now : Z) (order : Order) : Order :=
  set_generated_by
    (if truthy (generated_by order)
     then default "" (generated_by order) else "Legacy System")
    (set_expires_at (now + DAY_MS) (set_otp_status "active" order)).

Definition getOrderByCode (now : Z) (orderCode : string) (st : Storage)
  : option Order * Storage :=
  let '(orders, st1) := getAllOrders now st in
  match orders !! orderCode with
  | None => (None, st1)
  | Some order0 =>
      let '(order, st2) :=
        if negb (truthy (otp_status order0))
        then let order1 := upgradeLegacy now order0 in
             (order1, (updateOrder now orderCode order1 st1).2)
        else (order0, st1) in
      if str_is (otp_status order) "used" then (None, st2)
      else if isExpired now order then (None, st2)
      else (Some order, st2)
  end.

Definition markOrderAsUsed (now : Z) (orderCode : string) (st : Storage)
  : bool * Storage :=
  let '(orders, st1) := getAllOrders now st in
  match orders !! orderCode with
  | Some order =>
      if str_is (otp_status order) "active"
      then
        let orders' :=
          <[orderCode := set_used_at now (set_otp_status "used" order)]> orders in
        (true,
         mkStorage
           (<["kgbites_shared_orders" := Parsed orders']>
              (<[storageKey := Parsed orders']> (localStorage st1)))
           (sessionStorage st1))
      else (false, st1)
  | None => (false, st1)
  end.

(** [items.map(item => ({...item, delivered: deliveredItems.includes(item.id) ? true : item.delivered}))] *)
Definition markItems (deliveredItems : list Z) (items : list Item) : list Item :=
  map (λ item,
         mkItem (item_id item) (item_name item) (quantity item)
           (if bool_decide (item_id item ∈ deliveredItems)
            then true else delivered item))
      items.

(** The in-place changes that [markCounterDelivered] makes to the record
    it looked up, before handing it to [updateOrder]. *)
Definition markCounterDelivered_record (counterName : string)
    (deliveredItems : list Z) (order : Order) : Order :=
  let order1 :=
    match items_by_counter order with
    | Some groups =>
        match groups !! counterName with
        | Some items =>
            set_items_by_counter
              (<[counterName := markItems deliveredItems items]> groups) order
        | None => order
        end
    | None => order
    end in
  let order2 :=
    match counters_completed order1 with
    | None => set_counters_completed [] order1
    | Some _ => order1
    end in
  let completed := default [] (counters_completed order2) in
  let order3 :=
    if bool_decide (counterName ∈ completed) then order2
    else set_counters_completed (completed ++ [counterName]) order2 in
  let allCounters := Object_keys (default ∅ (items_by_counter order3)) in
  set_is_complete
    (forallb (λ counter,
                bool_decide (counter ∈ default [] (counters_completed order3)))
             allCounters)
    order3.

Definition markCounterDelivered (now : Z) (orderCode counterName : string)
    (deliveredItems : list Z) (st : Storage) : bool * Storage :=
  let '(found, st1) := getOrderByCode now orderCode st in
  match found with
  | None => (false, st1)
  | Some order =>
      updateOrder now orderCode
        (markCounterDelivered_record counterName deliveredItems order) st1
  end.

(** The answer of the status endpoint, as [fetchOtpStatus] returns it. *)
Record StatusRes := mkStatusRes {
  status : option string;
  res_used_at : option Z
}.

Definition syncOrderStatusFromServer (now : Z) (statusRes : StatusRes)
    (orderCode : string) (st : Storage) : option Order * Storage :=
  let '(currentAll, st1) := getAllOrders now st in
  let current := default emptyObj (currentAll !! orderCode) in
  let s := status statusRes in
  let st2 :=
    if str_is s "used" then
      let countersInvolved :=
        match counters_involved current with
        | Some cs => cs
        | None => Object_keys (default ∅ (items_by_counter current))
        end in
      let updates :=
        set_used_at (default now (res_used_at statusRes))
          (set_counters_completed countersInvolved
            (set_is_complete true (set_otp_status "used" emptyObj))) in
      (updateOrder now orderCode updates st1).2
    else if str_is s "expired" then
      (updateOrder now orderCode (set_otp_status "expired" emptyObj) st1).2
    else if str_is s "active" then
      (updateOrder now orderCode (set_otp_status "active" emptyObj) st1).2
    else st1 in
  let '(all, st3) := getAllOrders now st2 in
  (all !! orderCode, st3).

(** ** Code generation *)

Definition letters : string := "ABCDEFGHIJKLMNOPQRSTUVWXYZ".
Definition numbers : string := "0123456789".
Definition maxAttempts : nat := 100.

(** [s.charAt(i)]: the empty string when [i] is out of range. *)
Definition charAt (i : nat) (s : string) : string :=
  match String.get i s with
  | Some c => String c ""
  | None => ""
  end.

(** [s.slice(-n)]: the last [n] characters, all of [s] when it is shorter. *)
Definition slice_last (n : nat) (s : string) : string :=
  substring (String.length s - n) n s.

(** [n.toString()] of an integral number. *)
Definition toString (n : Z) : string :=
  NilZero.string_of_int (Z.to_int n).

(** The six values [Math.floor(Math.random() * length)] of one attempt. *)
Record Draw := mkDraw {
  letter1 : nat; letter2 : nat;
  num1 : nat; num2 : nat; num3 : nat; num4 : nat
}.

Definition drawCode (d : Draw) : string :=
  charAt (letter1 d) letters ++ charAt (letter2 d) letters ++
  charAt (num1 d) numbers ++ charAt (num2 d) numbers ++
  charAt (num3 d) numbers ++ charAt (num4 d) numbers.

(** ['OR' + Date.now().toString().slice(-4)] *)
Definition fallbackCode (now : Z) : string :=
  "OR" ++ slice_last 4 (toString now).

(** The [do ... while] loop; [random k] is the draw of the attempt that
    follows [k] earlier ones.  The result carries the final value of
    [attempts] next to the code. *)
Fixpoint generateLoop (fuel : nat) (now : Z) (random : nat → Draw)
    (attempts : nat) (st : Storage) : option (string * nat * Storage) :=
  match fuel with
  | O => None
  | S fuel' =>
      let code := drawCode (random attempts) in
      let attempts' := S attempts in
      if bool_decide (maxAttempts ≤ attempts')%nat
      then Some (fallbackCode now, attempts', st)
      else
        let '(found, st1) := getOrderByCode now code st in
        match found with
        | Some _ => generateLoop fuel' now random attempts' st1
        | None => Some (code, attempts', st1)
        end
  end.

Definition generateOrderCode (now : Z) (random : nat → Draw) (st : Storage)
  : option (string * nat * Storage) :=
  generateLoop maxAttempts now random 0 st.

(** ** Creating an order from the cart *)

(** A cart item.  The counter is read from the first truthy one of three
    properties.  Prices, and the amounts computed from them (floating
    point), play no part in the service's logic and are not modelled. *)
Record CartItem := mkCartItem {
  cart_id : Z;
  cart_name : string;
  cart_quantity : Z;
  cart_counter_name : option string;
  cart_counter : option string;
  cart_counter_id : option string
}.

Record UserInfo := mkUserInfo {
  user_name : option string;
  user_student_id : option string;
  user_email : option string
}.

(** [a || b] on optional strings. *)
Definition orElse (a : option string) (b : string) : string :=
  if truthy a then default "" a else b.

(** [item.counter_name || item.counter || item.counter_id || 'General'] *)
Definition counterOf (item : CartItem) : string :=
  orElse (cart_counter_name item)
    (orElse (cart_counter item) (orElse (cart_counter_id item) "General")).

(** One round of the [cartItems.forEach] that groups the items. *)
Definition groupItem (itemsByCounter : gmap string (list Item))
    (item : CartItem) : gmap string (list Item) :=
  let counter := counterOf item in
  let itemsByCounter1 :=
    match itemsByCounter !! counter with
    | Some _ => itemsByCounter
    | None => <[counter := []]> itemsByCounter
    end in
  <[counter := (default [] (itemsByCounter1 !! counter)
                ++ [mkItem (cart_id item) (cart_name item)
                      (cart_quantity item) false])%list]> itemsByCounter1.

(** The [orderData] object of [createOrderFromCart]. *)
Definition cartOrderData (now : Z) (orderCode : string)
    (cartItems : list CartItem) (userInfo : UserInfo) : Order :=
  let itemsByCounter := foldl groupItem ∅ cartItems in
  mkOrder (Some orderCode) (Some itemsByCounter)
    (Some (Object_keys itemsByCounter)) (Some []) (Some false)
    None None (Some now) None None None
    (<["student_name" := orElse (user_name userInfo) "Student"]>
       (<["student_id" := orElse (user_student_id userInfo) "Unknown"]>
          (<["student_email" := orElse (user_email userInfo) ""]>
             (<["status" := "confirmed"]> ∅)))).

(** [createOrderFromCart]: the code and the order data on success. *)
Definition createOrderFromCart (now : Z) (origin : string)
    (random : nat → Draw) (cartItems : list CartItem) (userInfo : UserInfo)
    (st : Storage) : option (string * Order) * Storage :=
  match generateOrderCode now random st with
  | Some (orderCode, _, st1) =>
      let orderData := cartOrderData now orderCode cartItems userInfo in
      let '(saved, st2) := saveOrder now origin orderData st1 in
      if saved then (Some (orderCode, orderData), st2) else (None, st2)
  | None => (None, st)
  end.

(** ** The pattern of a code *)

(** The pattern of a code: two upper-case letters, then four digits. *)
Definition isUpper (c : ascii) : bool :=
  (65 <=? nat_of_ascii c)%nat && (nat_of_ascii c <=? 90)%nat.

Definition isDigit (c : ascii) : bool :=
  (48 <=? nat_of_ascii c)%nat && (nat_of_ascii c <=? 57)%nat.

Definition isOrderCode (s : string) : bool :=
  match s with
  | String a (String b (String c (String d (String e (String f "")))))  =>
      isUpper a && isUpper b && isDigit c && isDigit d && isDigit e && isDigit f
  | _ => false
  end.

(** Every character of a string is a decimal digit. *)
Fixpoint allDigits (s : string) : bool :=
  match s with
  | "" => true
  | String c s' => isDigit c && allDigits s'
  end.

(** The draws that [Math.random() ∈ [0, 1)] can produce. *)
Definition drawInRange (d : Draw) : Prop :=
  (letter1 d < 26 ∧ letter2 d < 26 ∧
   num1 d < 10 ∧ num2 d < 10 ∧ num3 d < 10 ∧ num4 d < 10)%nat.

(** ** Sequences of calls *)

(** The merged, purged map that [getAllOrders] returns at [now]. *)
Definition view (now : Z) (st : Storage) : gmap string Order :=
  purge now (mergeAll st).

(** A call of [markCounterDelivered]: instant, code, counter, item ids. *)
Definition Delivery : Type := Z * string * string * list Z.

Definition deliver (d : Delivery) (st : Storage) : Storage :=
  let '(now, orderCode, counterName, deliveredItems) := d in
  (markCounterDelivered now orderCode counterName deliveredItems st).2.

Definition deliverAll (ds : list Delivery) (st : Storage) : Storage :=
  foldl (λ s d, deliver d s) st ds.


(** The operations that act on a stored order after it was saved. *)
Inductive Op :=
  | OpGetAll
  | OpLookup (orderCode : string)
  | OpDeliver (orderCode counterName : string) (deliveredItems : list Z)
  | OpSync (statusRes : StatusRes) (orderCode : string)
  | OpMarkUsed (orderCode : string).

Definition runOp (now : Z) (op : Op) (st : Storage) : Storage :=
  match op with
  | OpGetAll => (getAllOrders now st).2
  | OpLookup c => (getOrderByCode now c st).2
  | OpDeliver c counter ids => (markCounterDelivered now c counter ids st).2
  | OpSync res c => (syncOrderStatusFromServer now res c st).2
  | OpMarkUsed c => (markOrderAsUsed now c st).2
  end.

Definition runOps (ops : list (Z * Op)) (st : Storage) : Storage :=
  foldl (λ s op, runOp op.1 op.2 s) st ops.

(** Reduction by [simpl] stops at the operations of the service. *)
Arguments mergeAll : simpl never.
Arguments purge : simpl never.
Arguments view : simpl never.
Arguments writeAll : simpl never.
Arguments writeEverywhere : simpl never.
Arguments getAllOrders : simpl never.
Arguments saveOrder : simpl never.
Arguments updateOrder : simpl never.
Arguments getOrderByCode : simpl never.
Arguments markOrderAsUsed : simpl never.
Arguments markCounterDelivered : simpl never.
Arguments syncOrderStatusFromServer : simpl never.

(** ** The effect of a call on one entry of the merged map

    Each operation changes the entry of the code it is called with; these
    functions describe that change on the entry which [getAllOrders]
    shows for the code at the instant of the call. *)

(** The effect of the purge on one entry of the merged map. *)
Definition purge1 (now : Z) (x : option Order) : option Order :=
  match x with
  | Some o => if isExpired now o then None else Some o
  | None => None
  end.

(** [b] has every property of [a], possibly with another value. *)
Definition covers (a b : Order) : Prop :=
  spread a b = b.

(** The groups after the items of one counter were marked. *)
Definition deliverGroups (counterName : string) (deliveredItems : list Z)
    (groups : option (gmap string (list Item)))
  : option (gmap string (list Item)) :=
  match groups with
  | Some g =>
      match g !! counterName with
      | Some items => Some (<[counterName := markItems deliveredItems items]> g)
      | None => Some g
      end
  | None => None
  end.

(** [if (!completed.includes(counterName)) completed.push(counterName)] *)
Definition addCompleted (counterName : string) (completed : list string)
  : list string :=
  if bool_decide (counterName ∈ completed) then completed
  else completed ++ [counterName].

(** [allCounters.every(counter => completed.includes(counter))] *)
Definition allCompleted (groups : option (gmap string (list Item)))
    (completed : list string) : bool :=
  forallb (λ counter, bool_decide (counter ∈ completed))
          (Object_keys (default ∅ groups)).

(** The record that [getOrderByCode] works on, after the legacy upgrade. *)
Definition normalise (now : Z) (o : Order) : Order :=
  if truthy (otp_status o) then o else upgradeLegacy now o.

(** The value that [getOrderByCode] returns, from the entry of the code. *)
Definition lookupResult (now : Z) (x : option Order) : option Order :=
  match x with
  | None => None
  | Some order0 =>
      let order := normalise now order0 in
      if str_is (otp_status order) "used" then None
      else if isExpired now order then None
      else Some order
  end.

(** The entry that [getOrderByCode] leaves behind. *)
Definition lookupEntry (now : Z) (x : option Order) : option Order :=
  match x with
  | None => None
  | Some order0 =>
      if truthy (otp_status order0) then Some order0
      else Some (set_updated_at now (upgradeLegacy now order0))
  end.

(** The entry that [updateOrder] leaves behind. *)
Definition updateEntry (now : Z) (updates : Order) (x : option Order)
  : option Order :=
  match x with
  | Some current => Some (set_updated_at now (spread current updates))
  | None => None
  end.

(** The entry that [markCounterDelivered] leaves behind. *)
Definition deliverEntry (now : Z) (counterName : string)
    (deliveredItems : list Z) (x : option Order) : option Order :=
  match lookupResult now x with
  | Some order =>
      Some (set_updated_at now
              (markCounterDelivered_record counterName deliveredItems order))
  | None => lookupEntry now x
  end.

(** The counters that a [used] answer marks as completed. *)
Definition countersOf (o : Order) : list string :=
  match counters_involved o with
  | Some cs => cs
  | None => Object_keys (default ∅ (items_by_counter o))
  end.

(** The updates that [syncOrderStatusFromServer] passes to [updateOrder];
    [None] when the answer leads to no update. *)
Definition syncUpdates (now : Z) (statusRes : StatusRes) (current : Order)
  : option Order :=
  if str_is (status statusRes) "used" then
    Some (set_used_at (default now (res_used_at statusRes))
            (set_counters_completed (countersOf current)
               (set_is_complete true (set_otp_status "used" emptyObj))))
  else if str_is (status statusRes) "expired" then
    Some (set_otp_status "expired" emptyObj)
  else if str_is (status statusRes) "active" then
    Some (set_otp_status "active" emptyObj)
  else None.

(** The entry that [syncOrderStatusFromServer] leaves behind. *)
Definition syncEntry (now : Z) (statusRes : StatusRes) (x : option Order)
  : option Order :=
  match x with
  | Some current =>
      match syncUpdates now statusRes current with
      | Some updates => Some (set_updated_at now (spread current updates))
      | None => Some current
      end
  | None => None
  end.

(** What a delivery makes of a record that the read at [now] shows. *)
Definition deliverRecord (now : Z) (counterName : string)
    (deliveredItems : list Z) (o : Order) : Order :=
  if str_is (otp_status o) "used" then o
  else set_updated_at now
         (markCounterDelivered_record counterName deliveredItems
            (normalise now o)).


(** The entry [x] tells what every read from [t0] on shows for the code. *)
Definition tracks (code : string) (t0 : Z) (st : Storage) (x : option Order)
  : Prop :=
  ∀ t, t0 ≤ t → view t st !! code = purge1 t x.

(** ** Every stored copy of an order *)

(** The order map that a slot contributes to the merge. *)
Definition slotOrders (s : option Slot) : gmap string Order :=
  match s with
  | Some (Parsed orders) => orders
  | _ => ∅
  end.

(** The six maps that [getAllOrders] merges. *)
Definition storedMaps (st : Storage) : list (gmap string Order) :=
  map (λ key, slotOrders (localStorage st !! key)) allKeys
  ++ [slotOrders (sessionStorage st !! backupKey)].

(** [P] holds of every copy of the order of [code], in any mirror. *)
Definition everyCopy (P : Order → Prop) (code : string) (st : Storage)
  : Prop :=
  ∀ m o, m ∈ storedMaps st → m !! code = Some o → P o.

(** A record as [saveOrder] stamped it at instant [t0]. *)
Definition savedAt (t0 : Z) (o : Order) : Prop :=
  expires_at o = Some (t0 + DAY_MS) ∧ created_at o = Some t0 ∧
  truthy (otp_status o) = true.

(** The number of orders that a storage slot holds. *)
Definition slotSize (s : option Slot) : nat :=
  match s with
  | Some (Parsed orders) => size orders
  | _ => 0
  end.

(** The order that a [localStorage] key holds under a code. *)
Definition storedOrder (key code : string) (st : Storage) : option Order :=
  match localStorage st !! key with
  | Some (Parsed orders) => orders !! code
  | _ => None
  end.

(** ** Records that differ in the order of [counters_completed] *)





(** ** Properties as the specification states them *)

(** After [getAllOrders], the five keys, and the backup when orders exist,
    hold the returned map, which has no order past its expiry. *)
Definition mirrorsHoldView (now : Z) (st : Storage) : Prop :=
  let '(orders, st') := getAllOrders now st in
  (∀ key, key ∈ allKeys → localStorage st' !! key = Some (Parsed orders)) ∧
  (orders ≠ ∅ → ∀ slot, sessionStorage st' !! backupKey = Some slot →
                 slot = Parsed orders) ∧
  map_Forall (λ _ o, isExpired now o = false) orders.

(** The state of a code as the specification classifies it, read off the
    merged record: absent, past its expiry, consumed, or valid. *)
Inductive CodeState := NotFound | Expired | AlreadyConsumed | Valid.

Definition codeState (now : Z) (code : string) (st : Storage) : CodeState :=
  match mergeAll st !! code with
  | None => NotFound
  | Some o =>
      if isExpired now o then Expired
      else if str_is (otp_status o) "used" then AlreadyConsumed
      else Valid
  end.

(** The lookups of two codes in different failure states can be told
    apart by what [getOrderByCode] returns. *)
Definition failuresDistinguishable (now : Z) (code1 : string) (st1 : Storage)
    (code2 : string) (st2 : Storage) : Prop :=
  codeState now code1 st1 ≠ Valid → codeState now code2 st2 ≠ Valid →
  codeState now code1 st1 ≠ codeState now code2 st2 →
  (getOrderByCode now code1 st1).1 ≠ (getOrderByCode now code2 st2).1.

(** A delivery adds the counter to [counters_completed] only if every item
    of its group is delivered afterwards. *)
Definition completesOnlyWhenAllDelivered (now : Z) (code counterName : string)
    (deliveredItems : list Z) (st : Storage) : Prop :=
  ∀ before after groups items,
    view now st !! code = Some before →
    view now (markCounterDelivered now code counterName deliveredItems st).2
      !! code = Some after →
    items_by_counter after = Some groups →
    groups !! counterName = Some items →
    (∃ item, item ∈ items ∧ delivered item = false) →
    counters_completed after = counters_completed before.

(** The completion flag says that every counter of the order is in
    [counters_completed]. *)
Definition completeIffAllCounters (o : Order) : Prop :=
  is_complete o = Some true ↔
  ∀ counter, counter ∈ Object_keys (default ∅ (items_by_counter o)) →
             counter ∈ default [] (counters_completed o).

(** Whatever expiry a lookup leaves on the order of a code is 24 hours
    after the creation of that order. *)
Definition expiryFixedAtCreation (now : Z) (code : string) (st : Storage)
  : Prop :=
  ∀ o c e,
    view now (getOrderByCode now code st).2 !! code = Some o →
    created_at o = Some c → expires_at o = Some e →
    e = c + 24 * 60 * 60 * 1000.

(** An answer [used], [expired] or [active] overwrites the [otp_status]
    of the copy of the order that a [localStorage] key holds. *)
Definition syncOverwritesCopy (now : Z) (statusRes : StatusRes)
    (code key : string) (st : Storage) : Prop :=
  ∀ copy,
    storedOrder key code st = Some copy →
    status statusRes = Some "used" ∨ status statusRes = Some "expired" ∨
    status statusRes = Some "active" →
    storedOrder key code (syncOrderStatusFromServer now statusRes code st).2
      ≫= otp_status = status statusRes.

(** The generated code is the code of no order that the store shows as
    active. *)
Definition returnsUnusedCode (now : Z) (random : nat → Draw) (st : Storage)
  : Prop :=
  ∀ code attempts st',
    generateOrderCode now random st = Some (code, attempts, st') →
    ∀ o, view now st !! code = Some o → otp_status o ≠ Some "active".

(** ** Further operations of the service *)

(** [clearAllOrders]: [localStorage.removeItem(this.storageKey)] *)
Definition clearAllOrders (st : Storage) : Storage :=
  mkStorage (delete storageKey (localStorage st)) (sessionStorage st).

Arguments clearAllOrders : simpl never.

(** How the request of [fetchOtpStatus] ends: [fetch] rejects, the body
    of the response is not JSON, or the body is the object [data]. *)
Inductive FetchOutcome :=
  | FetchRejects
  | BodyNotJson
  | Body (data : StatusRes).

(** [fetchOtpStatus]: [{ status: 'error', ... }] from the [catch], [{}]
    from [res.json().catch(() => ({}))], or the body. *)
Definition fetchOtpStatus (outcome : FetchOutcome) : StatusRes :=
  match outcome with
  | FetchRejects => mkStatusRes (Some "error") None
  | BodyNotJson => mkStatusRes None None
  | Body data => data
  end.

(** The copy of an order in the session backup. *)
Definition backupOrder (code : string) (st : Storage) : option Order :=
  match sessionStorage st !! backupKey with
  | Some (Parsed orders) => orders !! code
  | _ => None
  end.

(** Each of the five keys and the session backup holds [orders]. *)
Definition mirrorsAgree (st : Storage) (orders : gmap string Order) : Prop :=
  (∀ key, key ∈ allKeys → localStorage st !! key = Some (Parsed orders)) ∧
  sessionStorage st !! backupKey = Some (Parsed orders).

(** Every order that a read at [now] shows has a truthy [otp_status]:
    the store holds no legacy record. *)
Definition noLegacy (now : Z) (st : Storage) : Prop :=
  ∀ code o, view now st !! code = Some o → truthy (otp_status o) = true.

(** A call of the service that reads or writes the store. *)
Inductive Call :=
  | CallOp (op : Op)
  | CallUpdate (orderCode : string) (updates : Order)
  | CallSave (origin : string) (orderData : Order).

Definition runCall (now : Z) (call : Call) (st : Storage) : Storage :=
  match call with
  | CallOp op => runOp now op st
  | CallUpdate c updates => (updateOrder now c updates st).2
  | CallSave origin orderData => (saveOrder now origin orderData st).2
  end.

(** The code that a call is made for. *)
Definition callCode (call : Call) : option string :=
  match call with
  | CallOp OpGetAll => None
  | CallOp (OpLookup c) => Some c
  | CallOp (OpDeliver c _ _) => Some c
  | CallOp (OpSync _ c) => Some c
  | CallOp (OpMarkUsed c) => Some c
  | CallUpdate c _ => Some c
  | CallSave _ orderData => Some (propertyKey (order_code orderData))
  end.

(** ** Items and counters of an order over time *)

(** What a delivery at [counterName] with the ids [deliveredItems] makes
    of an item of the group of [counter]. *)
Definition itemAfter (counterName : string) (deliveredItems : list Z)
    (counter : string) (item : Item) : Item :=
  mkItem (item_id item) (item_name item) (quantity item)
    (delivered item ||
     (bool_decide (counter = counterName) &&
      bool_decide (item_id item ∈ deliveredItems))).

(** An item as it was, or as it was but delivered. *)
Definition itemKept (item0 item : Item) : Prop :=
  item_id item = item_id item0 ∧ item_name item = item_name item0 ∧
  quantity item = quantity item0 ∧
  (delivered item0 = true → delivered item = true).

(** The groups [groups] hold the items of [groups0], counter by counter
    and in the same order; only [delivered] flags were raised. *)
Definition itemsKept (groups0 groups : gmap string (list Item)) : Prop :=
  ∀ counter,
    match groups0 !! counter, groups !! counter with
    | Some items0, Some items => Forall2 itemKept items0 items
    | None, None => True
    | _, _ => False
    end.

(** What the operations keep of a record that [saveOrder] stored. *)
Definition payloadKept (origin : string) (orderData o : Order) : Prop :=
  order_code o = order_code orderData ∧
  counters_involved o = counters_involved orderData ∧
  generated_by o = Some origin ∧
  other o = other orderData ∧
  truthy (otp_status o) = true ∧
  match items_by_counter orderData, items_by_counter o with
  | Some groups0, Some groups => itemsKept groups0 groups
  | None, None => True
  | _, _ => False
  end.

(** No counter is listed twice. *)
Definition countersOnce (o : Order) : Prop :=
  NoDup (default [] (counters_completed o)) ∧
  NoDup (default [] (counters_involved o)).

(** The order item that [createOrderFromCart] pushes for a cart item. *)
Definition orderItem (item : CartItem) : Item :=
  mkItem (cart_id item) (cart_name item) (cart_quantity item) false.

(** ** The counter screen of the staff portal (CounterInterface.jsx) *)

(** The answer of the server to the consumption of a code. *)
Record Consumed := mkConsumed {
  consumed_status : option string;
  consumed_used_at : option Z
}.

(** How a click on the delivery button ends: with one of the three
    messages that leave the screen as it is, with the [TypeError] of an
    order without [items_by_counter], or with the updated order ([true]
    when the consumption of the code on the server failed). *)
Inductive Marked :=
  | NoOrderLoaded
  | AlreadyDelivered
  | ItemsUnchecked (n : nat)
  | Thrown
  | Updated (updated : Order) (consumeFailed : bool).

(** [markAsDelivered]: [checkedItems] are the ids in the [Set] of checked
    boxes, [consumed] is what [consumeOrderCode] returns ([None]: it
    throws). *)
Definition markAsDelivered (currentOrder : option Order)
    (selectedCounter : string) (checkedItems : list Z)
    (consumed : option Consumed) : Marked :=
  match currentOrder with
  | None => NoOrderLoaded
  | Some order =>
      match items_by_counter order with
      | None => Thrown
      | Some groups =>
          let counterItems := default [] (groups !! selectedCounter) in
          let undeliveredItems :=
            filter (λ item, delivered item = false) counterItems in
          if bool_decide (length undeliveredItems = 0%nat)
          then AlreadyDelivered
          else
            let uncheckedItems :=
              filter (λ item, item_id item ∉ checkedItems) undeliveredItems in
            if bool_decide (0 < length uncheckedItems)%nat
            then ItemsUnchecked (length uncheckedItems)
            else
              let updated1 :=
                set_items_by_counter
                  (<[selectedCounter := markItems checkedItems counterItems]>
                     groups) order in
              let updated2 :=
                match counters_completed updated1 with
                | None => set_counters_completed [] updated1
                | Some _ => updated1
                end in
              let completed := default [] (counters_completed updated2) in
              let updated3 :=
                if bool_decide (selectedCounter ∈ completed) then updated2
                else set_counters_completed (completed ++ [selectedCounter])
                       updated2 in
              let allCounters :=
                Object_keys (default ∅ (items_by_counter updated3)) in
              let isOrderComplete :=
                forallb (λ counter,
                           bool_decide
                             (counter ∈ default [] (counters_completed updated3)))
                        allCounters in
              let updated4 := set_is_complete isOrderComplete updated3 in
              if isOrderComplete then
                match consumed with
                | Some res =>
                    let updated5 :=
                      set_otp_status (orElse (consumed_status res) "used")
                        updated4 in
                    Updated
                      match consumed_used_at res with
                      | Some u => set_used_at u updated5
                      | None => updated5
                      end
                      false
                | None => Updated updated4 true
                end
              else Updated updated4 false
      end
  end.

(** ** The orders page of the student portal (OrdersPage.jsx) *)

(** [!o.is_complete && o.otp_status !== 'used']: the orders that [syncAll]
    asks the server about. *)
Definition needsSync (o : Order) : bool :=
  negb (default false (is_complete o)) && negb (str_is (otp_status o) "used").

(** What [syncAll] shows for an order after its answer: [synced || o]. *)
Definition syncedOrder (now : Z) (statusRes : StatusRes) (o : Order)
    (st : Storage) : Order :=
  default o
    (syncOrderStatusFromServer now statusRes (propertyKey (order_code o)) st).1.

(** ** The cart of the student dashboard (Dashboard.jsx)

    A menu item carries the stock that the server reported, if any; a
    cart line is a copy of the menu item it was added from, with a
    quantity.  [addToCart] refuses an item without a positive stock, so
    the stock of a line is a number.  Prices are left out, as above. *)

Record MenuItem := mkMenuItem {
  menu_id : Z;
  menu_name : string;
  menu_stock : option Z
}.

Record CartLine := mkCartLine {
  line_id : Z;
  line_name : string;
  line_stock : Z;
  line_quantity : Z
}.

Definition set_line_quantity (q : Z) (line : CartLine) : CartLine :=
  mkCartLine (line_id line) (line_name line) (line_stock line) q.

(** [addToCart(item)]: the next value of [cartItems]. *)
Definition addToCart (item : MenuItem) (cartItems : list CartLine)
  : list CartLine :=
  let existingItem :=
    list_find (λ cartItem, line_id cartItem = menu_id item) cartItems in
  match menu_stock item with
  | None => cartItems
  | Some stock =>
      if bool_decide (stock ≤ 0) then cartItems
      else
        match existingItem with
        | Some (_, existing) =>
            if bool_decide (stock ≤ line_quantity existing) then cartItems
            else
              map (λ cartItem,
                     if bool_decide (line_id cartItem = menu_id item)
                     then set_line_quantity (line_quantity cartItem + 1)
                            cartItem
                     else cartItem)
                  cartItems
        | None =>
            cartItems ++ [mkCartLine (menu_id item) (menu_name item) stock 1]
        end
  end.

(** [updateQuantity(id, change)]: the next value of [cartItems]. *)
Definition updateQuantity (id change : Z) (cartItems : list CartLine)
  : list CartLine :=
  filter (λ item, 0 < line_quantity item)
    (map (λ item,
            if bool_decide (line_id item = id) then
              let newQuantity := line_quantity item + change in
              if bool_decide (newQuantity < 0) then item
              else if bool_decide (0 < change)
                      && bool_decide (line_stock item < newQuantity)
              then item
              else set_line_quantity newQuantity item
            else item)
         cartItems).

(** [getTotalItems()] *)
Definition getTotalItems (cartItems : list CartLine) : Z :=
  foldl (λ sum item, sum + line_quantity item) 0 cartItems.

(** A cart with one line per item and no line without a quantity. *)
Definition cartOk (cartItems : list CartLine) : Prop :=
  NoDup (line_id <$> cartItems) ∧
  Forall (λ line, 1 ≤ line_quantity line) cartItems.

(** ** Confirming an order in the student dashboard (Dashboard.jsx)

    The properties of a cart item that [handleConfirmOrder] reads before
    it turns to the wallet and the server.  [confirm_priced] says that
    [item.price] is truthy and parses to a positive number; a counter id
    or name is [None] when the property is falsy; [item.counter], when
    truthy, is an object with its own id and name (a string has
    neither). *)
Record CounterRef := mkCounterRef {
  ref_id : option string;
  ref_name : option string
}.

Record ConfirmItem := mkConfirmItem {
  confirm_id : Z;
  confirm_name : string;
  confirm_priced : bool;
  confirm_quantity : Z;
  confirm_counter_id : option string;
  confirm_counter : option CounterRef;
  confirm_counter_name : option string
}.

(** How [handleConfirmOrder] ends before its first [await]: with one of
    three messages, or with the groups and counter names of the payload. *)
Inductive Confirmation :=
  | CartIsEmpty
  | InvalidData
  | NoValidCounters
  | Proceeds (itemsByCounterId : gmap string (list Item))
             (counterIdToName : gmap string string).

(** [!item.price || parseFloat(item.price) <= 0 || !item.quantity ||
     item.quantity <= 0] *)
Definition invalidItem (item : ConfirmItem) : bool :=
  negb (confirm_priced item) || bool_decide (confirm_quantity item ≤ 0).

(** [item.counter_id || item.counter?.id || 'unknown'] *)
Definition confirmCounterId (item : ConfirmItem) : string :=
  orElse (confirm_counter_id item)
    (orElse (confirm_counter item ≫= ref_id) "unknown").

(** [item.counter_name || item.counter?.name || 'Unknown Counter'], read
    after the loop that sets [counter_name] to ['Unknown Counter'] on an
    item with neither [counter_name] nor [counter]. *)
Definition confirmCounterName (item : ConfirmItem) : string :=
  let counter_name :=
    if negb (truthy (confirm_counter_name item))
       && negb (bool_decide (is_Some (confirm_counter item)))
    then Some "Unknown Counter"
    else confirm_counter_name item in
  orElse counter_name
    (orElse (confirm_counter item ≫= ref_name) "Unknown Counter").

(** One round of the [cartItems.forEach] that groups the items. *)
Definition confirmStep
    (acc : gmap string (list Item) * gmap string string)
    (item : ConfirmItem) : gmap string (list Item) * gmap string string :=
  let '(itemsByCounterId, counterIdToName) := acc in
  let counterId := confirmCounterId item in
  let counterIdToName1 :=
    <[counterId := confirmCounterName item]> counterIdToName in
  let itemsByCounterId1 :=
    match itemsByCounterId !! counterId with
    | Some _ => itemsByCounterId
    | None => <[counterId := []]> itemsByCounterId
    end in
  (<[counterId := (default [] (itemsByCounterId1 !! counterId)
                   ++ [mkItem (confirm_id item) (confirm_name item)
                         (confirm_quantity item) false])%list]>
     itemsByCounterId1,
   counterIdToName1).

(** [handleConfirmOrder], up to the check of the counters.  The list
    [countersInvolved] is [Object.keys(itemsByCounterId)] mapped element
    by element, so it has the length of the key list. *)
Definition handleConfirmOrder (cartItems : list ConfirmItem) : Confirmation :=
  if bool_decide (length cartItems = 0%nat) then CartIsEmpty
  else
    let invalidItems := filter (λ item, invalidItem item = true) cartItems in
    if bool_decide (0 < length invalidItems)%nat then InvalidData
    else
      let '(itemsByCounterId, counterIdToName) :=
        foldl confirmStep (∅, ∅) cartItems in
      let countersInvolved := Object_keys itemsByCounterId in
      if bool_decide (length countersInvolved = 0%nat) then NoValidCounters
      else Proceeds itemsByCounterId counterIdToName.

(** Every group has items, all of them undelivered and with a positive
    quantity, and every group has a counter name. *)
Definition groupsWellFormed (groups : gmap string (list Item))
    (names : gmap string string) : Prop :=
  ∀ counterId items,
    groups !! counterId = Some items →
    items ≠ [] ∧ is_Some (names !! counterId) ∧
    Forall (λ item, delivered item = false ∧ 0 < quantity item) items.

(** ** Sample data

    The order of the scenario with two counters, one of which serves two
    items, and the stores used in the examples below. *)

Definition sampleGroups : gmap string (list Item) :=
  <["Snacks" := [mkItem 2 "Tea" 2 false; mkItem 3 "Samosa" 1 false]]>
    (<["Veg & Meals" := [mkItem 1 "Rice" 1 false]]> ∅).

Definition sampleOrder : Order :=
  mkOrder (Some "TS1234") (Some sampleGroups)
    (Some ["Veg & Meals"; "Snacks"]) (Some []) (Some false)
    None None (Some 900) None None None ∅.

Definition otherOrder : Order :=
  mkOrder (Some "KB0001") (Some (<["Snacks" := [mkItem 7 "Vada" 1 false]]> ∅))
    (Some ["Snacks"]) (Some []) (Some false)
    None None (Some 400) None None None ∅.

Definition sampleOrigin : string := "http://localhost:5173".

Definition emptyStorage : Storage := mkStorage ∅ ∅.

(** The store after [saveOrder(sampleOrder)] at instant 1000. *)
Definition savedStorage : Storage :=
  (saveOrder 1000 sampleOrigin sampleOrder emptyStorage).2.

(** A tab that saved [otherOrder] at 500, seen after another tab of the
    same origin saved [sampleOrder] at 1000: [localStorage] is shared,
    [sessionStorage] belongs to the tab. *)
Definition firstTab : Storage :=
  (saveOrder 500 sampleOrigin otherOrder emptyStorage).2.

Definition staleBackupStorage : Storage :=
  mkStorage
    (localStorage (saveOrder 1000 sampleOrigin sampleOrder firstTab).2)
    (sessionStorage firstTab).

(** [savedStorage] after the server reported the order as used. *)
Definition usedStorage : Storage :=
  (syncOrderStatusFromServer 1500 (mkStatusRes (Some "used") (Some 1400))
     "TS1234" savedStorage).2.

(** [savedStorage] after [markOrderAsUsed('TS1234')] at instant 2000. *)
Definition consumedStorage : Storage :=
  (markOrderAsUsed 2000 "TS1234" savedStorage).2.

(** An order that was stored at instant 1000 before the OTP properties
    existed: no [otp_status], no [expires_at], no [generated_by]. *)
Definition legacyOrder : Order :=
  mkOrder (Some "LG0001") (Some (<["Snacks" := [mkItem 7 "Vada" 1 false]]> ∅))
    (Some ["Snacks"]) (Some []) (Some false)
    None None (Some 1000) None None None ∅.

Definition legacyStorage : Storage :=
  mkStorage (<["kgbites_orders" := Parsed (<["LG0001" := legacyOrder]> ∅)]> ∅)
            ∅.

(** [createOrderFromCart([], {name: 'Asha'})] at instant 1000 on the empty
    store, the first draw giving the code [EC0000]. *)
Definition emptyCartStorage : Storage :=
  (createOrderFromCart 1000 "http://localhost:5173"
     (λ _, mkDraw 4 2 0 0 0 0) [] (mkUserInfo (Some "Asha") None None)
     (mkStorage ∅ ∅)).2.

(** An order with the code [OR5000], and the store that holds it, saved
    five seconds before a code is generated; every draw gives [OR5000]. *)
Definition fallbackOrder : Order :=
  mkOrder (Some "OR5000") (Some (<["Snacks" := [mkItem 7 "Vada" 1 false]]> ∅))
    (Some ["Snacks"]) (Some []) (Some false)
    None None (Some 1730000000000) None None None ∅.

Definition fallbackStorage : Storage :=
  (saveOrder 1730000000000 sampleOrigin fallbackOrder emptyStorage).2.

Definition sameDraw : nat → Draw := λ _, mkDraw 14 17 5 0 0 0.

(** ** Reading the store: merge and purge *)

Lemma union_Some_l {A} (x : A) (y : option A) : Some x ∪ y = Some x.
Proof. by destruct y. Qed.

Lemma union_None_l {A} (y : option A) : None ∪ y = y.
Proof. by destruct y. Qed.

Lemma union_None_r {A} (y : option A) : y ∪ None = y.
Proof. by destruct y. Qed.

Lemma union_idemp_option {A} (y : option A) : y ∪ y = y.
Proof. by destruct y. Qed.

Lemma purge1_Some now x o :
  purge1 now x = Some o ↔ x = Some o ∧ isExpired now o = false.
Proof.
  destruct x as [o'|]; simpl; [|intuition congruence].
  destruct (isExpired now o') eqn:E; intuition congruence.
Qed.

Lemma lookup_purge now m k : purge now m !! k = purge1 now (m !! k).
Proof.
  apply option_eq; intros o. unfold purge.
  by rewrite map_lookup_filter_Some, purge1_Some.
Qed.

Lemma isExpired_mono (now t : Z) o :
  now ≤ t → isExpired now o = true → isExpired t o = true.
Proof.
  unfold isExpired. destruct (expires_at o); [|done].
  intros Hle. rewrite !bool_decide_eq_true. lia.
Qed.

Lemma purge1_purge1 (now t : Z) x :
  now ≤ t → purge1 t (purge1 now x) = purge1 t x.
Proof.
  intros Hle. destruct x as [o|]; simpl; [|done].
  destruct (isExpired now o) eqn:E; simpl; [|done].
  by rewrite (isExpired_mono now t o Hle E).
Qed.

Lemma purge_purge (now t : Z) m : now ≤ t → purge t (purge now m) = purge t m.
Proof.
  intros Hle. apply map_eq; intros k.
  by rewrite !lookup_purge, purge1_purge1.
Qed.

Lemma purge_idemp now m : purge now (purge now m) = purge now m.
Proof. by apply purge_purge. Qed.

Lemma lookup_view now st k : view now st !! k = purge1 now (mergeAll st !! k).
Proof. apply lookup_purge. Qed.

Lemma view_notExpired now st k o :
  view now st !! k = Some o → isExpired now o = false.
Proof. rewrite lookup_view, purge1_Some. tauto. Qed.

Lemma view_later (now t : Z) st : now ≤ t → purge t (view now st) = view t st.
Proof. apply purge_purge. Qed.

Lemma lookup_readSlot s acc k :
  readSlot s acc !! k =
    match s with
    | Some (Parsed orders) => orders !! k ∪ acc !! k
    | _ => acc !! k
    end.
Proof. destruct s as [[|m]|]; simpl; try done. by rewrite lookup_union. Qed.

Lemma elem_of_allKeys k :
  k ∈ allKeys ↔
  k = "kgbites_orders" ∨ k = "kgbites_shared_orders" ∨
  k = "kgbites_student_orders" ∨ k = "kgbites_staff_orders" ∨
  k = "kgbites_cross_port_orders".
Proof. unfold allKeys. rewrite !elem_of_cons, elem_of_nil. tauto. Qed.

Lemma writeAll_lookup orders ls k :
  writeAll orders ls !! k =
    if bool_decide (k ∈ allKeys) then Some (Parsed orders) else ls !! k.
Proof.
  case_bool_decide as H.
  - apply elem_of_allKeys in H. unfold writeAll, allKeys; simpl.
    destruct H as [->|[->|[->|[->| ->]]]]; by simplify_map_eq.
  - rewrite elem_of_allKeys in H. unfold writeAll, allKeys; simpl.
    rewrite !lookup_insert_ne; [done|intros <-; tauto..].
Qed.

Lemma writeAll_lookup_key orders ls k :
  k ∈ allKeys → writeAll orders ls !! k = Some (Parsed orders).
Proof. intros H. by rewrite writeAll_lookup, bool_decide_eq_true_2. Qed.

(** Once the five keys hold [orders], their merge is [orders]. *)
Lemma mergeAll_writeAll orders ls ss :
  mergeAll (mkStorage (writeAll orders ls) ss)
  = readSlot (ss !! backupKey) orders.
Proof.
  unfold mergeAll; simpl. f_equal.
  rewrite !writeAll_lookup_key by (apply elem_of_allKeys; tauto).
  simpl. by rewrite (right_id_L ∅ (∪)), !(idemp_L (∪)).
Qed.

Lemma mergeAll_writeEverywhere orders st :
  mergeAll (writeEverywhere orders st) = orders.
Proof.
  unfold writeEverywhere. rewrite mergeAll_writeAll, lookup_insert_eq.
  simpl. by rewrite (idemp_L (∪)).
Qed.

Lemma view_writeEverywhere now orders st :
  view now (writeEverywhere orders st) = purge now orders.
Proof. unfold view. by rewrite mergeAll_writeEverywhere. Qed.

Lemma getAllOrders_fst now st : (getAllOrders now st).1 = view now st.
Proof. unfold getAllOrders. by case_bool_decide. Qed.

Lemma getAllOrders_eq now st :
  getAllOrders now st = (view now st, (getAllOrders now st).2).
Proof. rewrite <- getAllOrders_fst. by destruct (getAllOrders now st). Qed.

(** What a read leaves in the store is invisible to every later read. *)
Lemma view_getAllOrders (now t : Z) st :
  now ≤ t → view t (getAllOrders now st).2 = view t st.
Proof.
  intros Hle. unfold getAllOrders. case_bool_decide; [|done]. simpl.
  unfold view at 1. rewrite mergeAll_writeAll.
  apply map_eq; intros k. rewrite lookup_purge, lookup_view.
  rewrite lookup_readSlot. unfold mergeAll.
  rewrite lookup_purge, lookup_readSlot.
  destruct (sessionStorage st !! backupKey) as [[|b]|];
    try by rewrite purge1_purge1.
  destruct (b !! k) as [o|] eqn:Hb.
  - by rewrite !union_Some_l.
  - by rewrite !union_None_l, purge1_purge1.
Qed.

(** ** Records: spreads and assignments *)

Lemma spread_self o : spread o o = o.
Proof.
  destruct o; unfold spread; simpl.
  by rewrite !union_idemp_option, (idemp_L (∪)).
Qed.

Lemma covers_upgradeLegacy now o : covers o (upgradeLegacy now o).
Proof.
  destruct o; unfold covers, spread, upgradeLegacy; simpl.
  by rewrite !union_idemp_option, !union_Some_l, (idemp_L (∪)).
Qed.

Lemma spread_touch_l (t t' : Z) a b :
  set_updated_at t (spread (set_updated_at t' a) b) = set_updated_at t (spread a b).
Proof. by destruct a, b. Qed.

Lemma markCounterDelivered_record_eq c ids o :
  markCounterDelivered_record c ids o =
  let completed := addCompleted c (default [] (counters_completed o)) in
  let groups := deliverGroups c ids (items_by_counter o) in
  mkOrder (order_code o) groups (counters_involved o) (Some completed)
    (Some (allCompleted groups completed)) (otp_status o) (generated_by o)
    (created_at o) (updated_at o) (expires_at o) (used_at o) (other o).
Proof.
  destruct o as [oc [g|] ci [cc|] ic os gb ca ua ea usa ot];
    unfold markCounterDelivered_record, deliverGroups, addCompleted,
      allCompleted; simpl;
    try destruct (g !! c); simpl; try case_bool_decide; done.
Qed.

Lemma covers_markCounterDelivered_record c ids o :
  covers o (markCounterDelivered_record c ids o).
Proof.
  rewrite markCounterDelivered_record_eq.
  destruct o as [oc g ci cc ic os gb ca ua ea usa ot];
    unfold covers, spread; simpl.
  rewrite !union_idemp_option, !union_Some_l, (idemp_L (∪)).
  f_equal. destruct g as [g|]; simpl; [|done].
  destruct (g !! c); by rewrite union_Some_l.
Qed.

(** ** What each operation does to the merged map *)

Lemma Object_keys_length {A} (m : gmap string A) :
  length (Object_keys m) = size m.
Proof. unfold Object_keys. by rewrite length_fmap, length_map_to_list. Qed.

Lemma Object_keys_nonempty {A} (m : gmap string A) :
  (0 < length (Object_keys m))%nat ↔ m ≠ ∅.
Proof.
  rewrite Object_keys_length, <- map_size_non_empty_iff. lia.
Qed.

Lemma elem_of_Object_keys {A} (m : gmap string A) k :
  k ∈ Object_keys m ↔ is_Some (m !! k).
Proof.
  unfold Object_keys. rewrite list_elem_of_fmap. split.
  - intros [[k' x] [-> Hx]]. apply elem_of_map_to_list in Hx. by exists x.
  - intros [x Hx]. exists (k, x). split; [done|]. by apply elem_of_map_to_list.
Qed.

Lemma getAllOrders_snd_nonempty now st :
  view now st ≠ ∅ →
  (getAllOrders now st).2
  = mkStorage (writeAll (view now st) (localStorage st)) (sessionStorage st).
Proof.
  intros H. unfold getAllOrders.
  rewrite bool_decide_eq_true_2; [done|]. by apply Object_keys_nonempty.
Qed.

Lemma getAllOrders_snd_empty now st :
  view now st = ∅ → (getAllOrders now st).2 = st.
Proof.
  intros H. unfold getAllOrders.
  rewrite bool_decide_eq_false_2; [done|].
  rewrite Object_keys_nonempty. intros Hne. by apply Hne.
Qed.

Lemma lookup_purge_partial_alter t f code (m : gmap string Order) k :
  purge t (partial_alter f code m) !! k =
    if decide (k = code) then purge1 t (f (m !! code)) else purge1 t (m !! k).
Proof.
  rewrite lookup_purge. case_decide as Hk.
  - subst. by rewrite lookup_partial_alter_eq.
  - by rewrite lookup_partial_alter_ne.
Qed.

Lemma partial_alter_fix f code (m : gmap string Order) :
  f (m !! code) = m !! code → partial_alter f code m = m.
Proof.
  intros H. rewrite <- (partial_alter_self m code) at 2.
  apply partial_alter_ext. by intros ? <-.
Qed.

Lemma updateOrder_eq now code u st :
  updateOrder now code u st =
    match view now st !! code with
    | Some current =>
        (true,
         writeEverywhere
           (<[code := set_updated_at now (spread current u)]> (view now st))
           (getAllOrders now st).2)
    | None => (false, (getAllOrders now st).2)
    end.
Proof. unfold updateOrder. by rewrite getAllOrders_eq. Qed.

Lemma view_updateOrder (now t : Z) code u st :
  now ≤ t →
  view t (updateOrder now code u st).2
  = purge t (partial_alter (updateEntry now u) code (view now st)).
Proof.
  intros Hle. rewrite updateOrder_eq.
  destruct (view now st !! code) as [cur|] eqn:E; simpl.
  - rewrite view_writeEverywhere. f_equal.
    apply map_eq; intros k. destruct (decide (k = code)) as [->|Hk].
    + by rewrite lookup_insert_eq, lookup_partial_alter_eq, E.
    + by rewrite lookup_insert_ne, lookup_partial_alter_ne.
  - rewrite view_getAllOrders by done.
    rewrite partial_alter_fix by (by rewrite E). by rewrite view_later.
Qed.

Lemma updateOrder_fst now code u st :
  (updateOrder now code u st).1 = bool_decide (is_Some (view now st !! code)).
Proof.
  rewrite updateOrder_eq. by destruct (view now st !! code).
Qed.

Lemma getOrderByCode_fst now code st :
  (getOrderByCode now code st).1 = lookupResult now (view now st !! code).
Proof.
  unfold getOrderByCode, lookupResult, normalise. rewrite getAllOrders_eq.
  destruct (view now st !! code) as [o0|]; [|done].
  destruct (truthy (otp_status o0)); cbn [negb].
  - destruct (str_is (otp_status o0) "used"); [done|].
    by destruct (isExpired now o0).
  - destruct (str_is (otp_status (upgradeLegacy now o0)) "used"); [done|].
    by destruct (isExpired now (upgradeLegacy now o0)).
Qed.

Lemma getOrderByCode_snd now code st :
  (getOrderByCode now code st).2 =
    match view now st !! code with
    | Some order0 =>
        if truthy (otp_status order0) then (getAllOrders now st).2
        else (updateOrder now code (upgradeLegacy now order0)
                (getAllOrders now st).2).2
    | None => (getAllOrders now st).2
    end.
Proof.
  unfold getOrderByCode. rewrite getAllOrders_eq.
  destruct (view now st !! code) as [o0|]; [|done].
  destruct (truthy (otp_status o0)); cbn [negb].
  - destruct (str_is (otp_status o0) "used"); [done|].
    by destruct (isExpired now o0).
  - destruct (str_is (otp_status (upgradeLegacy now o0)) "used"); [done|].
    by destruct (isExpired now (upgradeLegacy now o0)).
Qed.

Lemma view_getOrderByCode (now t : Z) code st :
  now ≤ t →
  view t (getOrderByCode now code st).2
  = purge t (partial_alter (lookupEntry now) code (view now st)).
Proof.
  intros Hle. rewrite getOrderByCode_snd.
  destruct (view now st !! code) as [o0|] eqn:E.
  - destruct (truthy (otp_status o0)) eqn:T.
    + rewrite view_getAllOrders by done.
      rewrite partial_alter_fix; [by rewrite view_later|].
      by rewrite E; simpl; rewrite T.
    + rewrite view_updateOrder by done.
      rewrite view_getAllOrders by lia. f_equal.
      apply partial_alter_ext. intros x Hx. rewrite <- Hx, E. simpl.
      by rewrite T, covers_upgradeLegacy.
  - rewrite view_getAllOrders by done.
    rewrite partial_alter_fix; [by rewrite view_later|].
    by rewrite E.
Qed.

Lemma lookupResult_Some now x order :
  lookupResult now x = Some order →
  ∃ order0, x = Some order0 ∧ order = normalise now order0 ∧
    str_is (otp_status order) "used" = false ∧ isExpired now order = false.
Proof.
  unfold lookupResult. destruct x as [o0|]; [|done].
  destruct (str_is _ _) eqn:Hu; [done|].
  destruct (isExpired _ _) eqn:Hx; [done|].
  intros [= <-]. by exists o0.
Qed.

Lemma purge_view now st : purge now (view now st) = view now st.
Proof. apply purge_idemp. Qed.

Lemma purge1_view now st k : purge1 now (view now st !! k) = view now st !! k.
Proof. by rewrite <- lookup_purge, purge_view. Qed.

(** The entry of the code after a lookup that succeeded. *)
Lemma lookupEntry_found now st code order :
  lookupResult now (view now st !! code) = Some order →
  ∃ t', purge1 now (lookupEntry now (view now st !! code))
        = Some (set_updated_at t' order) ∨
        purge1 now (lookupEntry now (view now st !! code)) = Some order.
Proof.
  intros (o0 & E & -> & Hu & Hx)%lookupResult_Some. rewrite E. simpl.
  unfold normalise in *. exists now.
  destruct (truthy (otp_status o0)); simpl.
  - right. by rewrite Hx.
  - left. change (isExpired now (set_updated_at now (upgradeLegacy now o0)))
      with (isExpired now (upgradeLegacy now o0)). by rewrite Hx.
Qed.

Lemma view_markCounterDelivered (now t : Z) code c ids st :
  now ≤ t →
  view t (markCounterDelivered now code c ids st).2
  = purge t (partial_alter (deliverEntry now c ids) code (view now st)).
Proof.
  intros Hle. unfold markCounterDelivered.
  destruct (getOrderByCode now code st) as [found st1] eqn:G.
  assert (Hf : lookupResult now (view now st !! code) = found)
    by (by rewrite <- getOrderByCode_fst, G).
  assert (Hv : ∀ t', now ≤ t' →
            view t' st1
            = purge t' (partial_alter (lookupEntry now) code (view now st))).
  { intros t' Ht'. by rewrite <- view_getOrderByCode, G. }
  destruct found as [order|].
  - rewrite view_updateOrder by done. rewrite Hv by lia.
    apply map_eq; intros k. rewrite !lookup_purge_partial_alter.
    case_decide as Hk; [subst k|].
    + f_equal. rewrite decide_True by done.
      unfold deliverEntry. rewrite Hf.
      destruct (lookupEntry_found _ _ _ _ Hf) as [t' [-> | ->]]; simpl.
      * by rewrite spread_touch_l, covers_markCounterDelivered_record.
      * by rewrite covers_markCounterDelivered_record.
    + by rewrite purge1_view.
  - rewrite Hv by done. f_equal. apply partial_alter_ext.
    intros x <-. unfold deliverEntry. by rewrite Hf.
Qed.

Lemma markCounterDelivered_fst now code c ids st :
  (markCounterDelivered now code c ids st).1
  = bool_decide (is_Some (lookupResult now (view now st !! code))).
Proof.
  unfold markCounterDelivered.
  destruct (getOrderByCode now code st) as [found st1] eqn:G.
  assert (Hf : lookupResult now (view now st !! code) = found)
    by (by rewrite <- getOrderByCode_fst, G).
  assert (Hv : view now st1
            = purge now (partial_alter (lookupEntry now) code (view now st))).
  { replace st1 with (getOrderByCode now code st).2 by (by rewrite G).
    by apply view_getOrderByCode. }
  rewrite Hf. destruct found as [order|].
  - rewrite updateOrder_fst, Hv.
    rewrite lookup_purge_partial_alter, decide_True by done.
    by destruct (lookupEntry_found _ _ _ _ Hf) as [t' [-> | ->]].
  - done.
Qed.

(** [markOrderAsUsed] writes the two keys that the merge reads first, so
    the three keys read after them, which still hold the map read at the
    start of the call, hide its change from every later read. *)
Lemma union_insert_absorb (m : gmap string Order) k x :
  is_Some (m !! k) → m ∪ <[k := x]> m = m.
Proof.
  intros [o Ho]. apply map_eq; intros j. rewrite lookup_union.
  destruct (decide (j = k)) as [->|Hj].
  - by rewrite Ho, union_Some_l.
  - by rewrite lookup_insert_ne, union_idemp_option.
Qed.

Lemma mergeAll_markOrderAsUsed orders orders' ls ss :
  orders ∪ orders' = orders →
  mergeAll (mkStorage
              (<["kgbites_shared_orders" := Parsed orders']>
                 (<[storageKey := Parsed orders']> (writeAll orders ls)))
              ss)
  = readSlot (ss !! backupKey) orders.
Proof.
  intros H. unfold storageKey.
  remember (<["kgbites_shared_orders" := Parsed orders']>
              (<["kgbites_orders" := Parsed orders']> (writeAll orders ls)))
    as ls' eqn:Hls.
  assert (H1 : ls' !! "kgbites_orders" = Some (Parsed orders')).
  { subst ls'. by rewrite lookup_insert_ne, lookup_insert_eq. }
  assert (H2 : ls' !! "kgbites_shared_orders" = Some (Parsed orders')).
  { subst ls'. by rewrite lookup_insert_eq. }
  assert (H3 : ∀ k, k ∈ allKeys → k ≠ "kgbites_orders" →
                k ≠ "kgbites_shared_orders" → ls' !! k = Some (Parsed orders)).
  { intros k Hk Hk1 Hk2. subst ls'.
    by rewrite !lookup_insert_ne, writeAll_lookup_key. }
  unfold mergeAll; simpl. f_equal.
  rewrite H1, H2, !H3 by (done || apply elem_of_allKeys; tauto).
  simpl. rewrite (right_id_L ∅ (∪)), !(idemp_L (∪)).
  by rewrite H, !(idemp_L (∪)).
Qed.

Lemma view_markOrderAsUsed (now t : Z) code st :
  now ≤ t → view t (markOrderAsUsed now code st).2 = view t st.
Proof.
  intros Hle. unfold markOrderAsUsed. rewrite getAllOrders_eq.
  destruct (view now st !! code) as [order|] eqn:E;
    [|by apply view_getAllOrders].
  destruct (str_is (otp_status order) "active");
    [|by apply view_getAllOrders].
  simpl. rewrite <- (view_getAllOrders now t st Hle).
  rewrite getAllOrders_snd_nonempty by (intros H; by rewrite H in E).
  simpl. unfold view.
  rewrite mergeAll_markOrderAsUsed, mergeAll_writeAll; [done|].
  apply union_insert_absorb. by exists order.
Qed.

Lemma markOrderAsUsed_fst now code st :
  (markOrderAsUsed now code st).1
  = match view now st !! code with
    | Some order => str_is (otp_status order) "active"
    | None => false
    end.
Proof.
  unfold markOrderAsUsed. rewrite getAllOrders_eq.
  destruct (view now st !! code) as [order|]; [|done].
  by destruct (str_is (otp_status order) "active").
Qed.

Lemma syncOrderStatusFromServer_eq now res code st :
  syncOrderStatusFromServer now res code st =
  let st1 := (getAllOrders now st).2 in
  let current := default emptyObj (view now st !! code) in
  let st2 :=
    match syncUpdates now res current with
    | Some updates => (updateOrder now code updates st1).2
    | None => st1
    end in
  (view now st2 !! code, (getAllOrders now st2).2).
Proof.
  unfold syncOrderStatusFromServer, syncUpdates, countersOf.
  rewrite (getAllOrders_eq now st). cbv zeta.
  repeat match goal with
         | |- context [if str_is ?s ?l then _ else _] => destruct (str_is s l)
         end;
    by rewrite getAllOrders_eq.
Qed.

Lemma view_syncOrderStatusFromServer (now t : Z) res code st :
  now ≤ t →
  view t (syncOrderStatusFromServer now res code st).2
  = purge t (partial_alter (syncEntry now res) code (view now st)).
Proof.
  intros Hle. rewrite syncOrderStatusFromServer_eq. cbv zeta. cbn [snd].
  rewrite view_getAllOrders by done.
  destruct (view now st !! code) as [cur|] eqn:E; cbn [from_option id].
  - destruct (syncUpdates now res cur) as [u|] eqn:Hu.
    + rewrite view_updateOrder, view_getAllOrders by (done || lia).
      f_equal. apply partial_alter_ext. intros x <-.
      rewrite E. cbn [syncEntry]. by rewrite Hu.
    + rewrite view_getAllOrders by done.
      rewrite partial_alter_fix; [by rewrite view_later|].
      rewrite E. cbn [syncEntry]. by rewrite Hu.
  - assert (Hfix : partial_alter (syncEntry now res) code (view now st)
                   = view now st).
    { apply partial_alter_fix. by rewrite E. }
    rewrite Hfix, view_later by done.
    destruct (syncUpdates now res emptyObj) as [u|].
    + rewrite view_updateOrder, view_getAllOrders by (done || lia).
      rewrite partial_alter_fix; [by rewrite view_later|].
      by rewrite E.
    + by rewrite view_getAllOrders.
Qed.

Lemma syncOrderStatusFromServer_fst now res code st :
  (syncOrderStatusFromServer now res code st).1
  = purge1 now (syncEntry now res (view now st !! code)).
Proof.
  pose proof (view_syncOrderStatusFromServer now now res code st) as Hv.
  rewrite syncOrderStatusFromServer_eq in *. cbv zeta in *. cbn [fst snd] in *.
  rewrite view_getAllOrders in Hv by done.
  rewrite Hv by done.
  by rewrite lookup_purge_partial_alter, decide_True.
Qed.

Lemma saveOrder_snd now origin orderData st :
  (saveOrder now origin orderData st).2
  = writeEverywhere
      (<[propertyKey (order_code orderData)
         := orderWithOTP now origin orderData]> (view now st))
      (getAllOrders now st).2.
Proof. unfold saveOrder. by rewrite getAllOrders_eq. Qed.

Lemma view_saveOrder now t origin orderData st :
  view t (saveOrder now origin orderData st).2
  = purge t (<[propertyKey (order_code orderData)
               := orderWithOTP now origin orderData]> (view now st)).
Proof. by rewrite saveOrder_snd, view_writeEverywhere. Qed.

(** ** C10: the mirrors after [getAllOrders] *)

Lemma view_no_expired now st :
  map_Forall (λ _ o, ∀ e, expires_at o = Some e → now ≤ e) (view now st).
Proof.
  intros k o Ho e He. apply view_notExpired in Ho.
  unfold isExpired in Ho. rewrite He in Ho.
  apply bool_decide_eq_false in Ho. lia.
Qed.

(** The read that follows a read at the same instant returns the same map. *)
Lemma getAllOrders_again now st :
  (getAllOrders now (getAllOrders now st).2).1 = (getAllOrders now st).1.
Proof. by rewrite !getAllOrders_fst, view_getAllOrders. Qed.

(** With nothing left after the purge, [getAllOrders] writes nothing. *)
Lemma getAllOrders_empty_writes_nothing now st :
  (getAllOrders now st).1 = ∅ → (getAllOrders now st).2 = st.
Proof. rewrite getAllOrders_fst. apply getAllOrders_snd_empty. Qed.

(** C10, as stated, fails at two stores.  At [savedStorage] read after the
    expiry of its only order nothing is written and every key keeps the
    expired order; at [staleBackupStorage] the backup keeps its own map. *)
Lemma mirrorsHoldView_counterexample :
  ¬ mirrorsHoldView (1000 + DAY_MS + 1) savedStorage ∧
  ¬ mirrorsHoldView 2000 staleBackupStorage.
Proof.
  split; unfold mirrorsHoldView; rewrite getAllOrders_eq.
  - intros [H _].
    assert (Hk : "kgbites_orders" ∈ allKeys) by (apply elem_of_allKeys; tauto).
    apply H, (f_equal slotSize) in Hk. vm_compute in Hk. discriminate Hk.
  - intros (_ & H & _).
    assert (H1 : view 2000 staleBackupStorage ≠ ∅).
    { intros Hv%(f_equal size). vm_compute in Hv. discriminate Hv. }
    destruct (sessionStorage (getAllOrders 2000 staleBackupStorage).2
                !! backupKey) as [slot|] eqn:H2.
    + pose proof (H H1 slot eq_refl) as H3. subst slot.
      apply (f_equal slotSize) in H2. vm_compute in H2. discriminate H2.
    + apply (f_equal slotSize) in H2. vm_compute in H2. discriminate H2.
Qed.

(** C10, amended: after a call of [getAllOrders] that returns a non-empty
    map, each of the five [localStorage] keys holds exactly the returned
    map, which is the merge of the six mirrors without the orders whose
    [expires_at] is before [now]; a repeated read returns the same map;
    the session backup is not written. *)
Theorem getAllOrders_mirrors now st :
  (getAllOrders now st).1 ≠ ∅ →
  let orders := (getAllOrders now st).1 in
  let st' := (getAllOrders now st).2 in
  (∀ key, key ∈ allKeys → localStorage st' !! key = Some (Parsed orders)) ∧
  orders = purge now (mergeAll st) ∧
  map_Forall (λ _ o, ∀ e, expires_at o = Some e → now ≤ e) orders ∧
  (getAllOrders now st').1 = orders ∧
  sessionStorage st' = sessionStorage st.
Proof.
  intros Hne. cbv zeta. rewrite getAllOrders_again.
  rewrite getAllOrders_fst in *.
  rewrite getAllOrders_snd_nonempty by done. simpl.
  split_and!; try done.
  - intros key Hkey. by apply writeAll_lookup_key.
  - apply view_no_expired.
Qed.

Lemma getAllOrders_mirrors_witness :
  (getAllOrders 2000 staleBackupStorage).1 ≠ ∅ ∧
  (getAllOrders 2000 (getAllOrders 2000 staleBackupStorage).2).1
  = (getAllOrders 2000 staleBackupStorage).1.
Proof.
  assert (H : (getAllOrders 2000 staleBackupStorage).1 ≠ ∅).
  { intros H%(f_equal size). vm_compute in H. discriminate H. }
  split; [exact H|].
  exact (proj1 (proj2 (proj2 (proj2
           (getAllOrders_mirrors 2000 staleBackupStorage H))))).
Defined.

(** ** C4: what a lookup returns for a code that cannot be used *)

Lemma codeState_view now code st :
  view now st !! code =
    match codeState now code st with
    | NotFound | Expired => None
    | _ => mergeAll st !! code
    end.
Proof.
  rewrite lookup_view. unfold codeState, purge1.
  destruct (mergeAll st !! code) as [o|]; [|done].
  destruct (isExpired now o); [done|].
  by destruct (str_is (otp_status o) "used").
Qed.

(** C4, as stated, fails: the lookup of the consumed code of [usedStorage]
    and the lookup of the same code in the empty store return the same
    value, and so does the lookup of the code of [savedStorage] after its
    expiry. *)
Lemma failuresDistinguishable_counterexample :
  ¬ failuresDistinguishable 2000 "TS1234" usedStorage "TS1234" emptyStorage ∧
  ¬ failuresDistinguishable (1000 + DAY_MS + 1)
      "TS1234" savedStorage "TS1234" emptyStorage.
Proof.
  split; intros H; apply H; by vm_compute.
Qed.

(** C4, amended: [getOrderByCode] returns the same value, [null], for an
    absent code, for a record past its [expires_at] and for a record whose
    [otp_status] is ['used']. *)
Theorem getOrderByCode_failures_alike now code st :
  codeState now code st ≠ Valid →
  (getOrderByCode now code st).1 = None.
Proof.
  intros H. rewrite getOrderByCode_fst, codeState_view.
  unfold codeState in *.
  destruct (mergeAll st !! code) as [o|]; [|done].
  destruct (isExpired now o); [done|].
  destruct (str_is (otp_status o) "used") eqn:Hu; [|done].
  unfold lookupResult, normalise.
  apply bool_decide_eq_true in Hu. rewrite Hu. simpl. by rewrite Hu.
Qed.

Lemma getOrderByCode_failures_alike_witness :
  codeState 2000 "TS1234" usedStorage = AlreadyConsumed ∧
  (getOrderByCode 2000 "TS1234" usedStorage).1 = None.
Proof.
  split; [by vm_compute|].
  apply getOrderByCode_failures_alike. by vm_compute.
Defined.

(** A record that the server reported as ['expired'] but whose
    [expires_at] has not passed is returned like a valid one. *)
Lemma getOrderByCode_status_expired now code st o :
  view now st !! code = Some o →
  otp_status o = Some "expired" →
  (getOrderByCode now code st).1 = Some o.
Proof.
  intros Hv Hs. rewrite getOrderByCode_fst, Hv.
  unfold lookupResult, normalise. rewrite Hs. simpl. rewrite Hs. simpl.
  by rewrite (view_notExpired _ _ _ _ Hv).
Qed.

(** ** C1: when a counter is recorded as completed *)

Lemma elem_of_addCompleted c l : c ∈ addCompleted c l.
Proof.
  unfold addCompleted. case_bool_decide; [done|].
  apply elem_of_app. right. by apply list_elem_of_singleton.
Qed.

(** C1, as stated, fails: delivering item 2 alone at the counter that
    also serves item 3 records the counter as completed. *)
Lemma completesOnlyWhenAllDelivered_counterexample :
  ¬ completesOnlyWhenAllDelivered 2000 "TS1234" "Snacks" [2%Z] savedStorage.
Proof.
  intros H.
  destruct (view 2000 savedStorage !! "TS1234") as [before|] eqn:Hb;
    [|vm_compute in Hb; discriminate Hb].
  destruct (view 2000
              (markCounterDelivered 2000 "TS1234" "Snacks" [2%Z]
                 savedStorage).2 !! "TS1234") as [after|] eqn:Ha;
    [|vm_compute in Ha; discriminate Ha].
  assert (Hbc : view 2000 savedStorage !! "TS1234" ≫= counters_completed
                = Some []) by (vm_compute; reflexivity).
  assert (Hac : view 2000
                  (markCounterDelivered 2000 "TS1234" "Snacks" [2%Z]
                     savedStorage).2 !! "TS1234" ≫= counters_completed
                = Some ["Snacks"]) by (vm_compute; reflexivity).
  assert (Hai : (view 2000
                   (markCounterDelivered 2000 "TS1234" "Snacks" [2%Z]
                      savedStorage).2 !! "TS1234" ≫= items_by_counter)
                  ≫= (λ groups : gmap string (list Item), groups !! "Snacks")
                = Some [mkItem 2 "Tea" 2 true; mkItem 3 "Samosa" 1 false])
    by (vm_compute; reflexivity).
  rewrite Hb in Hbc. rewrite Ha in Hac, Hai.
  cbn [mbind option_bind] in Hbc, Hac, Hai.
  destruct (items_by_counter after) as [groups|] eqn:Hg; [|discriminate Hai].
  cbn [mbind option_bind] in Hai.
  assert (Hc : counters_completed after = counters_completed before).
  { apply (H before after groups _ Hb Ha Hg Hai).
    exists (mkItem 3 "Samosa" 1 false). split; [|done].
    apply elem_of_cons. right. apply elem_of_cons. by left. }
  rewrite Hbc, Hac in Hc. discriminate Hc.
Qed.

(** C1, amended: whenever its lookup of the order succeeds,
    [markCounterDelivered] marks the listed items of the counter's group
    and records the counter in [counters_completed] (once), whether or not
    every item of the group is then delivered. *)
Theorem markCounterDelivered_completes_counter
    now code counterName deliveredItems st order :
  (getOrderByCode now code st).1 = Some order →
  let r := markCounterDelivered now code counterName deliveredItems st in
  r.1 = true ∧
  ∃ after,
    view now r.2 !! code = Some after ∧
    items_by_counter after
      = deliverGroups counterName deliveredItems (items_by_counter order) ∧
    counters_completed after
      = Some (addCompleted counterName
                (default [] (counters_completed order))) ∧
    counterName ∈ default [] (counters_completed after).
Proof.
  intros Hl. cbv zeta. rewrite getOrderByCode_fst in Hl.
  rewrite markCounterDelivered_fst, Hl. split; [done|].
  rewrite view_markCounterDelivered by done.
  rewrite lookup_purge_partial_alter, decide_True by done.
  unfold deliverEntry. rewrite Hl.
  apply lookupResult_Some in Hl as (o0 & E & -> & Hu & Hx).
  rewrite markCounterDelivered_record_eq. cbv zeta.
  eexists. split.
  - unfold purge1, isExpired in *. simpl. by rewrite Hx.
  - simpl. split_and!; try done. apply elem_of_addCompleted.
Qed.

Lemma markCounterDelivered_completes_counter_witness :
  ∃ after,
    view 2000 (markCounterDelivered 2000 "TS1234" "Snacks" [2] savedStorage).2
      !! "TS1234" = Some after ∧
    "Snacks" ∈ default [] (counters_completed after).
Proof.
  destruct (markCounterDelivered_completes_counter 2000 "TS1234" "Snacks" [2]
              savedStorage (orderWithOTP 1000 sampleOrigin sampleOrder))
    as (_ & after & Hv & _ & _ & Hc).
  - vm_compute. reflexivity.
  - exists after. split; [exact Hv | exact Hc].
Defined.

(** ** C7: reconciling the local copy with the server's answer *)

Lemma syncUpdates_used now res current :
  status res = Some "used" →
  syncUpdates now res current
  = Some (set_used_at (default now (res_used_at res))
            (set_counters_completed (countersOf current)
               (set_is_complete true (set_otp_status "used" emptyObj)))).
Proof. unfold syncUpdates. by intros ->. Qed.

Lemma syncUpdates_expired now res current :
  status res = Some "expired" →
  syncUpdates now res current = Some (set_otp_status "expired" emptyObj).
Proof. unfold syncUpdates. by intros ->. Qed.

Lemma syncUpdates_active now res current :
  status res = Some "active" →
  syncUpdates now res current = Some (set_otp_status "active" emptyObj).
Proof. unfold syncUpdates. by intros ->. Qed.

Lemma syncUpdates_transient now res current :
  status res = Some "not_found" ∨ status res = Some "error" →
  syncUpdates now res current = None.
Proof. unfold syncUpdates. by intros [-> | ->]. Qed.

Lemma syncUpdates_expires_at now res current u :
  syncUpdates now res current = Some u → expires_at u = None.
Proof.
  unfold syncUpdates.
  repeat (destruct (str_is _ _); [by intros [= <-]|]). done.
Qed.

Lemma syncEntry_survives now res st code current u :
  view now st !! code = Some current →
  syncUpdates now res current = Some u →
  purge1 now (syncEntry now res (Some current))
  = Some (set_updated_at now (spread current u)).
Proof.
  intros Hv Hu. cbn [syncEntry]. rewrite Hu. unfold purge1.
  replace (isExpired now (set_updated_at now (spread current u)))
    with (isExpired now current); [by rewrite (view_notExpired _ _ _ _ Hv)|].
  unfold isExpired. cbn [expires_at set_updated_at spread].
  by rewrite (syncUpdates_expires_at _ _ _ _ Hu), union_None_l.
Qed.

(** C7, as stated, fails at a copy that is past its [expires_at]: read
    one millisecond after the expiry of its order, [savedStorage] still
    holds the order under every key, but an answer [used] overwrites
    none of the copies; the call returns [null] and each key keeps
    [otp_status = 'active']. *)
Lemma syncOverwritesCopy_counterexample :
  ¬ syncOverwritesCopy (1000 + DAY_MS + 1) (mkStatusRes (Some "used") None)
      "TS1234" "kgbites_orders" savedStorage ∧
  (syncOrderStatusFromServer (1000 + DAY_MS + 1)
     (mkStatusRes (Some "used") None) "TS1234" savedStorage).1 = None ∧
  ∀ key, key ∈ allKeys →
    storedOrder key "TS1234"
      (syncOrderStatusFromServer (1000 + DAY_MS + 1)
         (mkStatusRes (Some "used") None) "TS1234" savedStorage).2
      ≫= otp_status = Some "active".
Proof.
  assert (Hk : ∀ key, key ∈ allKeys →
            storedOrder key "TS1234"
              (syncOrderStatusFromServer (1000 + DAY_MS + 1)
                 (mkStatusRes (Some "used") None) "TS1234" savedStorage).2
              ≫= otp_status = Some "active").
  { intros key Hkey. apply elem_of_allKeys in Hkey.
    destruct Hkey as [->|[->|[->|[->| ->]]]]; vm_compute; reflexivity. }
  split_and!; [|vm_compute; reflexivity|exact Hk].
  intros H.
  assert (Hc : storedOrder "kgbites_orders" "TS1234" savedStorage
               = Some (orderWithOTP 1000 sampleOrigin sampleOrder))
    by (vm_compute; reflexivity).
  specialize (H _ Hc (or_introl eq_refl)).
  rewrite Hk in H by (apply elem_of_allKeys; tauto).
  discriminate H.
Qed.

(** C7, amended: with a local copy [current] that a read still shows
    under the code, that is a copy not past its [expires_at], an answer
    [not_found] or [error] leaves the copy, and every other order, as
    they were; an answer [used], [expired] or [active] overwrites
    [otp_status] with the answer, and [used] also sets [is_complete] and
    fills [counters_completed] with all counters of the order. *)
Theorem syncOrderStatusFromServer_cases now res code st current :
  view now st !! code = Some current →
  let r := syncOrderStatusFromServer now res code st in
  (status res = Some "not_found" ∨ status res = Some "error" →
     r.1 = Some current ∧ ∀ t, now ≤ t → view t r.2 = view t st) ∧
  (status res = Some "used" →
     ∃ o, r.1 = Some o ∧ view now r.2 !! code = Some o ∧
       otp_status o = Some "used" ∧ is_complete o = Some true ∧
       counters_completed o = Some (countersOf current)) ∧
  (status res = Some "expired" ∨ status res = Some "active" →
     ∃ o, r.1 = Some o ∧ view now r.2 !! code = Some o ∧
       otp_status o = status res ∧ is_complete o = is_complete current ∧
       counters_completed o = counters_completed current).
Proof.
  intros Hv. cbv zeta.
  rewrite syncOrderStatusFromServer_fst, Hv.
  rewrite (view_syncOrderStatusFromServer now now) by done.
  rewrite lookup_purge_partial_alter, decide_True, Hv by done.
  split_and!.
  - intros Hs. split.
    + cbn [syncEntry]. rewrite (syncUpdates_transient _ _ _ Hs).
      by rewrite <- Hv, purge1_view.
    + intros t Ht. rewrite view_syncOrderStatusFromServer by done.
      rewrite partial_alter_fix; [by rewrite view_later|].
      rewrite Hv. cbn [syncEntry]. by rewrite (syncUpdates_transient _ _ _ Hs).
  - intros Hs.
    rewrite (syncEntry_survives _ _ _ _ _ _ Hv (syncUpdates_used _ _ _ Hs)).
    eexists. split_and!; try done; cbn; by rewrite union_Some_l.
  - intros [Hs|Hs].
    + rewrite (syncEntry_survives _ _ _ _ _ _ Hv (syncUpdates_expired _ _ _ Hs)).
      eexists. split_and!; try done.
      * cbn. by rewrite Hs, union_Some_l.
      * cbn. by rewrite union_None_l.
      * cbn. by rewrite union_None_l.
    + rewrite (syncEntry_survives _ _ _ _ _ _ Hv (syncUpdates_active _ _ _ Hs)).
      eexists. split_and!; try done.
      * cbn. by rewrite Hs, union_Some_l.
      * cbn. by rewrite union_None_l.
      * cbn. by rewrite union_None_l.
Qed.

Lemma syncOrderStatusFromServer_cases_witness :
  (syncOrderStatusFromServer 1500 (mkStatusRes (Some "error") None)
     "TS1234" savedStorage).1
  = Some (orderWithOTP 1000 sampleOrigin sampleOrder) ∧
  ∃ o,
    (syncOrderStatusFromServer 1500 (mkStatusRes (Some "used") (Some 1400))
       "TS1234" savedStorage).1 = Some o ∧
    otp_status o = Some "used" ∧ is_complete o = Some true.
Proof.
  assert (Hv : view 1500 savedStorage !! "TS1234"
               = Some (orderWithOTP 1000 sampleOrigin sampleOrder))
    by (vm_compute; reflexivity).
  split.
  - destruct (syncOrderStatusFromServer_cases 1500
                (mkStatusRes (Some "error") None) "TS1234" savedStorage _ Hv)
      as (Hkeep & _ & _).
    apply Hkeep. by right.
  - destruct (syncOrderStatusFromServer_cases 1500
                (mkStatusRes (Some "used") (Some 1400)) "TS1234" savedStorage
                _ Hv) as (_ & Hused & _).
    destruct (Hused eq_refl) as (o & Hr & _ & Hs & Hc & _).
    exists o. split; [exact Hr|]. split; [exact Hs | exact Hc].
Defined.

(** ** C9: consuming a code with [markOrderAsUsed] *)

(** Without an active record under the code the call reports [false]. *)
Lemma markOrderAsUsed_refuses now code st :
  (∀ order, view now st !! code = Some order →
            otp_status order ≠ Some "active") →
  (markOrderAsUsed now code st).1 = false.
Proof.
  intros H. rewrite markOrderAsUsed_fst.
  destruct (view now st !! code) as [order|] eqn:E; [|done].
  unfold str_is. apply bool_decide_eq_false. by apply H.
Qed.

(** What a successful call writes: the record with ['used'] and [used_at]
    under the two keys [kgbites_orders] and [kgbites_shared_orders], the
    map it had read under the other three. *)
Lemma markOrderAsUsed_writes now code st :
  (markOrderAsUsed now code st).1 = true →
  ∃ order,
    view now st !! code = Some order ∧ otp_status order = Some "active" ∧
    let used := set_used_at now (set_otp_status "used" order) in
    let st' := (markOrderAsUsed now code st).2 in
    storedOrder "kgbites_orders" code st' = Some used ∧
    storedOrder "kgbites_shared_orders" code st' = Some used ∧
    storedOrder "kgbites_student_orders" code st' = Some order ∧
    storedOrder "kgbites_staff_orders" code st' = Some order ∧
    storedOrder "kgbites_cross_port_orders" code st' = Some order.
Proof.
  rewrite markOrderAsUsed_fst. unfold markOrderAsUsed.
  rewrite getAllOrders_eq.
  destruct (view now st !! code) as [order|] eqn:E; [|done].
  destruct (str_is (otp_status order) "active") eqn:Ha; [|done].
  intros _. exists order. apply bool_decide_eq_true in Ha.
  split_and!; try done; cbv zeta; unfold storedOrder; cbn [snd localStorage];
    rewrite getAllOrders_snd_nonempty by (intros H; by rewrite H in E);
    cbn [localStorage]; unfold storageKey.
  - by rewrite lookup_insert_ne, lookup_insert_eq, lookup_insert_eq.
  - by rewrite lookup_insert_eq, lookup_insert_eq.
  - rewrite !lookup_insert_ne, writeAll_lookup_key; try done.
    apply elem_of_allKeys; tauto.
  - rewrite !lookup_insert_ne, writeAll_lookup_key; try done.
    apply elem_of_allKeys; tauto.
  - rewrite !lookup_insert_ne, writeAll_lookup_key; try done.
    apply elem_of_allKeys; tauto.
Qed.

(** After a successful call every read still shows the record as active:
    the lookup accepts the code and a second call succeeds again. *)
Lemma markOrderAsUsed_not_recorded now code st :
  (markOrderAsUsed now code st).1 = true →
  let st' := (markOrderAsUsed now code st).2 in
  (∀ t, now ≤ t → view t st' = view t st) ∧
  (∃ order, (getOrderByCode now code st').1 = Some order ∧
            otp_status order = Some "active") ∧
  (markOrderAsUsed now code st').1 = true.
Proof.
  intros Hok. cbv zeta.
  destruct (markOrderAsUsed_writes _ _ _ Hok) as (order & Hv & Ha & _).
  split_and!.
  - intros t Ht. by apply view_markOrderAsUsed.
  - exists order. split; [|done].
    rewrite getOrderByCode_fst, view_markOrderAsUsed, Hv by done.
    unfold lookupResult, normalise. rewrite Ha.
    change (truthy (Some "active")) with true. cbn iota. rewrite Ha.
    change (str_is (Some "active") "used") with false. cbn iota.
    by rewrite (view_notExpired _ _ _ _ Hv).
  - rewrite markOrderAsUsed_fst, view_markOrderAsUsed, Hv by done.
    by rewrite Ha.
Qed.

(** C9 on [savedStorage]: the call at 2000 reports success and writes the
    record as used under [kgbites_orders], but the key
    [kgbites_cross_port_orders] keeps the active record; the lookup at 3000
    returns the order as active, and the same call at 4000 succeeds again
    and stamps a second [used_at]. *)
Theorem markOrderAsUsed_reverted :
  (markOrderAsUsed 2000 "TS1234" savedStorage).1 = true ∧
  storedOrder "kgbites_orders" "TS1234" consumedStorage ≫= otp_status
    = Some "used" ∧
  storedOrder "kgbites_orders" "TS1234" consumedStorage ≫= used_at
    = Some 2000 ∧
  storedOrder "kgbites_cross_port_orders" "TS1234" consumedStorage
    ≫= otp_status = Some "active" ∧
  (getOrderByCode 3000 "TS1234" consumedStorage).1 ≫= otp_status
    = Some "active" ∧
  (markOrderAsUsed 4000 "TS1234" consumedStorage).1 = true ∧
  storedOrder "kgbites_orders" "TS1234"
    (markOrderAsUsed 4000 "TS1234" consumedStorage).2 ≫= used_at
    = Some 4000.
Proof. split_and!; vm_compute; reflexivity. Qed.

(** ** Invariants of the stored copies *)

Lemma readSlot_union s acc : readSlot s acc = slotOrders s ∪ acc.
Proof.
  destruct s as [[|m]|]; simpl; try done; by rewrite (left_id_L ∅ (∪)).
Qed.

Lemma lookup_union_Some_either (m1 m2 : gmap string Order) k o :
  (m1 ∪ m2) !! k = Some o → m1 !! k = Some o ∨ m2 !! k = Some o.
Proof. rewrite lookup_union_Some_raw. tauto. Qed.

Lemma mergeAll_lookup_Some st code o :
  mergeAll st !! code = Some o →
  ∃ m, m ∈ storedMaps st ∧ m !! code = Some o.
Proof.
  unfold mergeAll, storedMaps, allKeys. cbn [foldl map app].
  rewrite !readSlot_union. intros H.
  repeat (apply lookup_union_Some_either in H as [H|H];
          [eexists; split; [|exact H]; set_solver|]).
  by rewrite lookup_empty in H.
Qed.

Lemma everyCopy_view P code st t o :
  everyCopy P code st → view t st !! code = Some o → P o.
Proof.
  intros Hall. rewrite lookup_view, purge1_Some. intros [Hm _].
  apply mergeAll_lookup_Some in Hm as (m & Hin & Hm). by eapply Hall.
Qed.

Lemma storedMaps_writeAll orders ls ss :
  storedMaps (mkStorage (writeAll orders ls) ss)
  = [orders; orders; orders; orders; orders; slotOrders (ss !! backupKey)].
Proof.
  unfold storedMaps, allKeys. cbn [map app localStorage sessionStorage].
  by rewrite !writeAll_lookup_key by (apply elem_of_allKeys; tauto).
Qed.

Lemma storedMaps_writeEverywhere orders st :
  storedMaps (writeEverywhere orders st)
  = [orders; orders; orders; orders; orders; orders].
Proof.
  unfold writeEverywhere. by rewrite storedMaps_writeAll, lookup_insert_eq.
Qed.

Lemma storedMaps_backup st :
  slotOrders (sessionStorage st !! backupKey) ∈ storedMaps st.
Proof. unfold storedMaps. set_solver. Qed.

Lemma everyCopy_writeEverywhere (P : Order → Prop) code orders st :
  (∀ o, orders !! code = Some o → P o) →
  everyCopy P code (writeEverywhere orders st).
Proof.
  intros H m o. rewrite storedMaps_writeEverywhere.
  rewrite !elem_of_cons, elem_of_nil. intros Hm Ho. apply H.
  by destruct Hm as [->|[->|[->|[->|[->|[->|[]]]]]]].
Qed.

Lemma everyCopy_getAllOrders P code now st :
  everyCopy P code st → everyCopy P code (getAllOrders now st).2.
Proof.
  intros Hall. destruct (decide (view now st = ∅)) as [He|Hne].
  - by rewrite getAllOrders_snd_empty.
  - rewrite getAllOrders_snd_nonempty by done. intros m o.
    rewrite storedMaps_writeAll, !elem_of_cons, elem_of_nil. cbn.
    intros Hm Ho.
    destruct Hm as [->|[->|[->|[->|[->|[->|[]]]]]]];
      try by eapply everyCopy_view.
    eapply Hall; [apply storedMaps_backup|done].
Qed.

Lemma everyCopy_updateOrder (P : Order → Prop) code now c u st :
  everyCopy P code st →
  (c = code → ∀ current, view now st !! code = Some current →
               P (set_updated_at now (spread current u))) →
  everyCopy P code (updateOrder now c u st).2.
Proof.
  intros Hall Hu. rewrite updateOrder_eq.
  destruct (view now st !! c) as [cur|] eqn:E; cbn [snd].
  - apply everyCopy_writeEverywhere. intros o.
    destruct (decide (c = code)) as [->|Hne].
    + rewrite lookup_insert_eq. intros [= <-]. by apply Hu.
    + rewrite lookup_insert_ne by done. by eapply everyCopy_view.
  - by apply everyCopy_getAllOrders.
Qed.

Lemma everyCopy_getOrderByCode (P : Order → Prop) code now c st :
  everyCopy P code st →
  (∀ o, P o → truthy (otp_status o) = false →
        P (set_updated_at now (upgradeLegacy now o))) →
  everyCopy P code (getOrderByCode now c st).2.
Proof.
  intros Hall Hup. rewrite getOrderByCode_snd.
  destruct (view now st !! c) as [o0|] eqn:E;
    [|by apply everyCopy_getAllOrders].
  destruct (truthy (otp_status o0)) eqn:T; [by apply everyCopy_getAllOrders|].
  apply everyCopy_updateOrder; [by apply everyCopy_getAllOrders|].
  intros -> cur. rewrite view_getAllOrders, E by done. intros [= <-].
  rewrite covers_upgradeLegacy. apply Hup; [|done].
  by eapply everyCopy_view.
Qed.

Lemma everyCopy_markCounterDelivered (P : Order → Prop) code now c counter
    ids st :
  everyCopy P code st →
  (∀ o, P o → truthy (otp_status o) = false →
        P (set_updated_at now (upgradeLegacy now o))) →
  (∀ o, P o →
        P (set_updated_at now
             (markCounterDelivered_record counter ids (normalise now o)))) →
  everyCopy P code (markCounterDelivered now c counter ids st).2.
Proof.
  intros Hall Hup Hrec. unfold markCounterDelivered.
  pose proof (getOrderByCode_fst now c st) as Hf.
  pose proof (view_getOrderByCode now now c st) as Hv.
  pose proof (everyCopy_getOrderByCode P code now c st Hall Hup) as Hall1.
  destruct (getOrderByCode now c st) as [found st1]. cbn [fst snd] in *.
  destruct found as [order|]; [|done].
  apply everyCopy_updateOrder; [done|].
  intros -> cur. rewrite Hv by done.
  rewrite lookup_purge_partial_alter, decide_True by done.
  symmetry in Hf.
  destruct (lookupEntry_found _ _ _ _ Hf) as [t' [-> | ->]]; intros [= <-].
  - rewrite spread_touch_l, covers_markCounterDelivered_record.
    apply lookupResult_Some in Hf as (o0 & E & -> & _). apply Hrec.
    exact (everyCopy_view P code st now o0 Hall E).
  - rewrite covers_markCounterDelivered_record.
    apply lookupResult_Some in Hf as (o0 & E & -> & _). apply Hrec.
    exact (everyCopy_view P code st now o0 Hall E).
Qed.

Lemma everyCopy_syncOrderStatusFromServer (P : Order → Prop) code now res c
    st :
  everyCopy P code st →
  (∀ o u, P o → syncUpdates now res o = Some u →
          P (set_updated_at now (spread o u))) →
  everyCopy P code (syncOrderStatusFromServer now res c st).2.
Proof.
  intros Hall Hu. rewrite syncOrderStatusFromServer_eq. cbv zeta. cbn [snd].
  apply everyCopy_getAllOrders.
  destruct (syncUpdates now res (default emptyObj (view now st !! c)))
    as [u|] eqn:E; [|by apply everyCopy_getAllOrders].
  apply everyCopy_updateOrder; [by apply everyCopy_getAllOrders|].
  intros -> cur. rewrite view_getAllOrders by done. intros Hc.
  rewrite Hc in E. cbn in E. apply Hu; [|done]. by eapply everyCopy_view.
Qed.

Lemma everyCopy_markOrderAsUsed (P : Order → Prop) code now c st :
  everyCopy P code st →
  (∀ o, P o → otp_status o = Some "active" →
        P (set_used_at now (set_otp_status "used" o))) →
  everyCopy P code (markOrderAsUsed now c st).2.
Proof.
  intros Hall Hu. unfold markOrderAsUsed. rewrite getAllOrders_eq.
  destruct (view now st !! c) as [order|] eqn:E;
    [|by apply everyCopy_getAllOrders].
  destruct (str_is (otp_status order) "active") eqn:Ha;
    [|by apply everyCopy_getAllOrders].
  apply bool_decide_eq_true in Ha. cbn [snd].
  pose proof (everyCopy_getAllOrders P code now st Hall) as Hall1.
  intros m o Hm Ho.
  assert (Hcases : m !! code = (view now st) !! code ∨
                   m !! code
                   = <[c := set_used_at now (set_otp_status "used" order)]>
                       (view now st) !! code ∨
                   m = slotOrders (sessionStorage st !! backupKey)).
  { revert Hm. unfold storedMaps, allKeys, storageKey.
    cbn [map app localStorage sessionStorage].
    rewrite getAllOrders_snd_nonempty by (intros H; by rewrite H in E).
    cbn [localStorage sessionStorage].
    rewrite lookup_insert_ne, lookup_insert_eq by done.
    rewrite lookup_insert_eq.
    rewrite !lookup_insert_ne by done.
    rewrite !writeAll_lookup_key by (apply elem_of_allKeys; tauto).
    rewrite !elem_of_cons, elem_of_nil. cbn [slotOrders].
    intros [->|[->|[->|[->|[->|[->|[]]]]]]]; auto. }
  destruct Hcases as [H|[H|H]].
  - rewrite H in Ho. exact (everyCopy_view P code st now o Hall Ho).
  - rewrite H in Ho. destruct (decide (c = code)) as [->|Hne].
    + rewrite lookup_insert_eq in Ho. injection Ho as <-.
      apply Hu; [|done]. exact (everyCopy_view P code st now order Hall E).
    + rewrite lookup_insert_ne in Ho by done.
      exact (everyCopy_view P code st now o Hall Ho).
  - subst m. eapply Hall; [apply storedMaps_backup|done].
Qed.

Lemma everyCopy_saveOrder (P : Order → Prop) now origin orderData st :
  P (orderWithOTP now origin orderData) →
  everyCopy P (propertyKey (order_code orderData))
    (saveOrder now origin orderData st).2.
Proof.
  intros HP. rewrite saveOrder_snd. apply everyCopy_writeEverywhere.
  intros o. rewrite lookup_insert_eq. by intros [= <-].
Qed.

(** ** C3: the expiry of a saved order *)

Lemma savedAt_orderWithOTP now origin orderData :
  savedAt now (orderWithOTP now origin orderData).
Proof. by destruct orderData. Qed.

Lemma savedAt_delivered t0 now counter ids o :
  savedAt t0 o →
  savedAt t0 (set_updated_at now
                (markCounterDelivered_record counter ids (normalise now o))).
Proof.
  intros (He & Hc & Ht). unfold normalise. rewrite Ht.
  by rewrite markCounterDelivered_record_eq.
Qed.

Lemma savedAt_synced t0 now res o u :
  savedAt t0 o → syncUpdates now res o = Some u →
  savedAt t0 (set_updated_at now (spread o u)).
Proof.
  intros (He & Hc & Ht). unfold syncUpdates, savedAt.
  repeat (destruct (str_is _ _);
          [intros [= <-]; cbn; by rewrite !union_None_l, union_Some_l|]).
  done.
Qed.

Lemma savedAt_used t0 now o :
  savedAt t0 o → savedAt t0 (set_used_at now (set_otp_status "used" o)).
Proof. by intros (He & Hc & Ht). Qed.

Lemma savedAt_runOp t0 code now op st :
  everyCopy (savedAt t0) code st →
  everyCopy (savedAt t0) code (runOp now op st).
Proof.
  intros Hall.
  assert (Hup : ∀ o, savedAt t0 o → truthy (otp_status o) = false →
                     savedAt t0 (set_updated_at now (upgradeLegacy now o))).
  { intros o (_ & _ & Ht) Hf. congruence. }
  destruct op as [|c|c counter ids|res c|c]; cbn [runOp].
  - by apply everyCopy_getAllOrders.
  - by apply everyCopy_getOrderByCode.
  - apply everyCopy_markCounterDelivered; [done..|].
    intros o. apply savedAt_delivered.
  - apply everyCopy_syncOrderStatusFromServer; [done|].
    intros o u. apply savedAt_synced.
  - apply everyCopy_markOrderAsUsed; [done|].
    intros o Ho _. by apply savedAt_used.
Qed.

Lemma savedAt_runOps t0 code ops st :
  everyCopy (savedAt t0) code st →
  everyCopy (savedAt t0) code (runOps ops st).
Proof.
  revert st. induction ops as [|[now op] ops IH]; intros st Hall; [done|].
  apply IH. by apply savedAt_runOp.
Qed.

(** The lookup of a record without [otp_status] returns it upgraded, with
    an expiry of 24 hours after the lookup. *)
Lemma getOrderByCode_upgrades_legacy now code st o :
  view now st !! code = Some o →
  truthy (otp_status o) = false →
  (getOrderByCode now code st).1 = Some (upgradeLegacy now o) ∧
  expires_at (upgradeLegacy now o) = Some (now + 24 * 60 * 60 * 1000).
Proof.
  intros Hv Ht. split; [|done]. rewrite getOrderByCode_fst, Hv.
  unfold lookupResult, normalise. rewrite Ht.
  replace (str_is (otp_status (upgradeLegacy now o)) "used") with false
    by done.
  replace (isExpired now (upgradeLegacy now o)) with false; [done|].
  symmetry. unfold isExpired. cbn. apply bool_decide_eq_false.
  unfold DAY_MS. lia.
Qed.

(** C3, as stated, fails at a legacy record: stored at instant 1000 and
    looked up three days later, it leaves the lookup with an expiry of 24
    hours after the lookup, four days after its creation. *)
Lemma expiryFixedAtCreation_counterexample :
  ¬ expiryFixedAtCreation (1000 + 3 * DAY_MS) "LG0001" legacyStorage.
Proof.
  intros H.
  assert (Hc : view (1000 + 3 * DAY_MS)
                 (getOrderByCode (1000 + 3 * DAY_MS) "LG0001"
                    legacyStorage).2 !! "LG0001" ≫= created_at
               = Some 1000) by (vm_compute; reflexivity).
  assert (He : view (1000 + 3 * DAY_MS)
                 (getOrderByCode (1000 + 3 * DAY_MS) "LG0001"
                    legacyStorage).2 !! "LG0001" ≫= expires_at
               = Some (1000 + 4 * DAY_MS)) by (vm_compute; reflexivity).
  destruct (view (1000 + 3 * DAY_MS)
              (getOrderByCode (1000 + 3 * DAY_MS) "LG0001" legacyStorage).2
              !! "LG0001") as [o|] eqn:E; [|discriminate Hc].
  cbn [mbind option_bind] in Hc, He.
  specialize (H o 1000 (1000 + 4 * DAY_MS) E Hc He).
  unfold DAY_MS in H. lia.
Qed.

(** C3, amended: [saveOrder] at instant [now] stores the order with
    [created_at = now] and [expires_at = now + 24h], and whatever lookups,
    deliveries, status syncs and consumptions follow, at whatever instants,
    every read that still shows the order shows it with that same
    [expires_at]. *)
Theorem expires_at_never_moves now origin orderData st :
  let code := propertyKey (order_code orderData) in
  let st1 := (saveOrder now origin orderData st).2 in
  (∃ saved, view now st1 !! code = Some saved ∧
            created_at saved = Some now ∧
            expires_at saved = Some (now + 24 * 60 * 60 * 1000)) ∧
  ∀ ops t o,
    view t (runOps ops st1) !! code = Some o →
    created_at o = Some now ∧
    expires_at o = Some (now + 24 * 60 * 60 * 1000).
Proof.
  cbv zeta. split.
  - exists (orderWithOTP now origin orderData).
    rewrite view_saveOrder, lookup_purge, lookup_insert_eq.
    split; [|by destruct orderData].
    unfold purge1, isExpired. cbn [expires_at orderWithOTP set_expires_at].
    rewrite bool_decide_eq_false_2; [done|]. unfold DAY_MS. lia.
  - intros ops t o Hv.
    assert (Hs : savedAt now o); [|destruct Hs as (He & Hc & _); done].
    eapply (everyCopy_view (savedAt now)); [|exact Hv].
    apply savedAt_runOps, everyCopy_saveOrder, savedAt_orderWithOTP.
Qed.

Lemma expires_at_never_moves_witness :
  ∃ o,
    view 5000
      (runOps [(2000, OpLookup "TS1234");
               (3000, OpDeliver "TS1234" "Snacks" [2; 3]);
               (4000, OpSync (mkStatusRes (Some "active") None) "TS1234")]
         savedStorage) !! "TS1234" = Some o ∧
    expires_at o = Some (1000 + 24 * 60 * 60 * 1000).
Proof.
  eexists. split; [vm_compute; reflexivity|].
  eapply (proj2 (expires_at_never_moves 1000 sampleOrigin sampleOrder
                   emptyStorage)
            [(2000, OpLookup "TS1234");
             (3000, OpDeliver "TS1234" "Snacks" [2; 3]);
             (4000, OpSync (mkStatusRes (Some "active") None) "TS1234")]
            5000).
  vm_compute. reflexivity.
Defined.

(** ** C2: the completion flag *)

Lemma allCompleted_spec groups completed :
  allCompleted groups completed = true ↔
  ∀ counter, counter ∈ Object_keys (default ∅ groups) → counter ∈ completed.
Proof.
  unfold allCompleted. rewrite forallb_forall. split.
  - intros H c Hc. apply list_elem_of_In, H in Hc.
    by apply bool_decide_eq_true in Hc.
  - intros H c Hc. apply bool_decide_eq_true, H. by apply list_elem_of_In.
Qed.

Lemma completeIffAllCounters_delivered now counter ids o :
  completeIffAllCounters
    (set_updated_at now (markCounterDelivered_record counter ids o)).
Proof.
  rewrite markCounterDelivered_record_eq. unfold completeIffAllCounters.
  cbn. rewrite <- allCompleted_spec. split; congruence.
Qed.

Lemma completeIffAllCounters_upgraded now o :
  completeIffAllCounters o →
  completeIffAllCounters (set_updated_at now (upgradeLegacy now o)).
Proof. by destruct o. Qed.

Lemma completeIffAllCounters_fresh now origin orderData groups :
  items_by_counter orderData = Some groups → groups ≠ ∅ →
  counters_completed orderData = Some [] →
  is_complete orderData = Some false →
  completeIffAllCounters (orderWithOTP now origin orderData).
Proof.
  intros Hg Hne Hc Hi. unfold completeIffAllCounters.
  cbn. rewrite Hg, Hc, Hi. cbn. split; [done|]. intros H.
  apply map_choose in Hne as (c & items & Hci).
  assert (Hin : c ∈ Object_keys groups)
    by (apply elem_of_Object_keys; by exists items).
  apply H in Hin. by apply elem_of_nil in Hin.
Qed.

Lemma completeIffAllCounters_deliverAll code ds st :
  everyCopy completeIffAllCounters code st →
  everyCopy completeIffAllCounters code (deliverAll ds st).
Proof.
  revert st.
  induction ds as [|[[[now c] counter] ids] ds IH]; intros st Hall; [done|].
  apply IH. cbn [deliver]. apply everyCopy_markCounterDelivered; [done|..].
  - intros o Ho _. by apply completeIffAllCounters_upgraded.
  - intros o _. apply completeIffAllCounters_delivered.
Qed.

Lemma foldl_groupItem_nonempty cartItems g :
  g ≠ ∅ ∨ cartItems ≠ [] → foldl groupItem g cartItems ≠ ∅.
Proof.
  revert g. induction cartItems as [|item items IH]; intros g H.
  - by destruct H.
  - cbn [foldl]. apply IH. left. unfold groupItem. apply insert_non_empty.
Qed.

(** The order data of a cart that is not empty satisfy the premises of the
    theorem below. *)
Lemma cartOrderData_fresh now orderCode cartItems userInfo :
  cartItems ≠ [] →
  ∃ groups,
    items_by_counter (cartOrderData now orderCode cartItems userInfo)
      = Some groups ∧ groups ≠ ∅ ∧
    counters_completed (cartOrderData now orderCode cartItems userInfo)
      = Some [] ∧
    is_complete (cartOrderData now orderCode cartItems userInfo)
      = Some false.
Proof.
  intros H. eexists. split_and!; try done.
  apply foldl_groupItem_nonempty. by right.
Qed.

(** C2, as stated, fails at the order that [createOrderFromCart] creates
    from an empty cart: freshly saved, with no delivery made, it has
    [is_complete = false] although each of its (zero) counters is in
    [counters_completed]. *)
Lemma completeIffAllCounters_counterexample :
  ∃ o,
    view 1000 (deliverAll [] emptyCartStorage) !! "EC0000" = Some o ∧
    counters_completed o = Some [] ∧ is_complete o = Some false ∧
    ¬ completeIffAllCounters o.
Proof.
  destruct (view 1000 (deliverAll [] emptyCartStorage) !! "EC0000")
    as [o|] eqn:E; [|vm_compute in E; discriminate E].
  assert (Hc : view 1000 (deliverAll [] emptyCartStorage) !! "EC0000"
               ≫= counters_completed = Some []) by (vm_compute; reflexivity).
  assert (Hi : view 1000 (deliverAll [] emptyCartStorage) !! "EC0000"
               ≫= is_complete = Some false) by (vm_compute; reflexivity).
  assert (Hg : view 1000 (deliverAll [] emptyCartStorage) !! "EC0000"
               ≫= items_by_counter = Some ∅) by (vm_compute; reflexivity).
  rewrite E in Hc, Hi, Hg. cbn [mbind option_bind] in Hc, Hi, Hg.
  clear E. exists o.
  split; [reflexivity|]. split; [exact Hc|]. split; [exact Hi|].
  intros [_ H]. rewrite Hi in H.
  assert (Ht : Some false = Some true); [|discriminate Ht].
  apply H. intros c Hin. rewrite Hg in Hin.
  apply elem_of_Object_keys in Hin as [x Hx].
  cbn in Hx. by rewrite lookup_empty in Hx.
Qed.

(** C2, amended: for a freshly created order with at least one counter
    group, saved and then subjected to any sequence of
    [markCounterDelivered] calls, every read that shows the order shows
    [is_complete = true] exactly when every counter key of
    [items_by_counter] is in [counters_completed]. *)
Theorem is_complete_iff_all_counters now origin orderData groups st ds t o :
  items_by_counter orderData = Some groups → groups ≠ ∅ →
  counters_completed orderData = Some [] →
  is_complete orderData = Some false →
  view t (deliverAll ds (saveOrder now origin orderData st).2)
    !! propertyKey (order_code orderData) = Some o →
  is_complete o = Some true ↔
  ∀ counter, counter ∈ Object_keys (default ∅ (items_by_counter o)) →
             counter ∈ default [] (counters_completed o).
Proof.
  intros Hg Hne Hc Hi Hv.
  eapply (everyCopy_view completeIffAllCounters); [|exact Hv].
  apply completeIffAllCounters_deliverAll, everyCopy_saveOrder.
  by eapply completeIffAllCounters_fresh.
Qed.

Lemma saveOrder_fst now origin orderData st :
  (saveOrder now origin orderData st).1 = true.
Proof. unfold saveOrder. by rewrite getAllOrders_eq. Qed.

(** The same for the orders that [createOrderFromCart] creates from a cart
    that is not empty. *)
Lemma created_order_complete_iff now origin random cartItems userInfo st
    code orderData ds t o :
  cartItems ≠ [] →
  (createOrderFromCart now origin random cartItems userInfo st).1
    = Some (code, orderData) →
  view t (deliverAll ds
            (createOrderFromCart now origin random cartItems userInfo st).2)
    !! code = Some o →
  completeIffAllCounters o.
Proof.
  intros Hcart. unfold createOrderFromCart.
  destruct (generateOrderCode now random st) as [[[c n] st1]|]; [|done].
  pose proof (saveOrder_fst now origin
                (cartOrderData now c cartItems userInfo) st1) as Hs.
  destruct (saveOrder now origin (cartOrderData now c cartItems userInfo) st1)
    as [saved st2] eqn:E.
  cbn [fst] in Hs. subst saved. cbn [fst snd]. intros [= <- <-] Hv.
  eapply (everyCopy_view completeIffAllCounters); [|exact Hv].
  apply completeIffAllCounters_deliverAll.
  replace st2
    with (saveOrder now origin (cartOrderData now c cartItems userInfo) st1).2
    by (by rewrite E).
  apply (everyCopy_saveOrder completeIffAllCounters now origin
           (cartOrderData now c cartItems userInfo)).
  destruct (cartOrderData_fresh now c cartItems userInfo Hcart)
    as (groups & Hg & Hne & Hc & Hi).
  by eapply completeIffAllCounters_fresh.
Qed.

Lemma is_complete_iff_all_counters_witness :
  ∃ o,
    view 4000
      (deliverAll [(2000, "TS1234", "Snacks", [2; 3]);
                   (3000, "TS1234", "Veg & Meals", [1])] savedStorage)
      !! "TS1234" = Some o ∧
    is_complete o = Some true ∧
    ∀ counter, counter ∈ Object_keys (default ∅ (items_by_counter o)) →
               counter ∈ default [] (counters_completed o).
Proof.
  eexists. split; [vm_compute; reflexivity|].
  split; [reflexivity|].
  apply (is_complete_iff_all_counters 1000 sampleOrigin sampleOrder
           sampleGroups emptyStorage
           [(2000, "TS1234", "Snacks", [2; 3]);
            (3000, "TS1234", "Veg & Meals", [1])] 4000).
  - reflexivity.
  - intros H%(f_equal size). vm_compute in H. discriminate H.
  - reflexivity.
  - reflexivity.
  - vm_compute. reflexivity.
  - reflexivity.
Defined.

(** ** C8: deliveries in any order *)

Lemma truthy_false_not_used s : truthy s = false → str_is s "used" = false.
Proof.
  unfold truthy, str_is. destruct s as [s|]; [|done].
  intros Hs. apply bool_decide_eq_false. intros [= ->]. done.
Qed.

Lemma normalise_truthy now o : truthy (otp_status (normalise now o)) = true.
Proof. unfold normalise. by destruct (truthy (otp_status o)) eqn:T. Qed.

Lemma normalise_used now o :
  str_is (otp_status (normalise now o)) "used" = str_is (otp_status o) "used".
Proof.
  unfold normalise. destruct (truthy (otp_status o)) eqn:T; [done|].
  by rewrite (truthy_false_not_used _ T).
Qed.

Lemma normalise_notExpired now o :
  isExpired now o = false → isExpired now (normalise now o) = false.
Proof.
  unfold normalise. destruct (truthy (otp_status o)); [done|]. intros _.
  unfold isExpired. cbn. apply bool_decide_eq_false. unfold DAY_MS. lia.
Qed.

Lemma normalise_idemp t o :
  truthy (otp_status o) = true → normalise t o = o.
Proof. unfold normalise. by intros ->. Qed.

(** On an entry that survived the purge, a delivery acts as
    [deliverRecord]. *)
Lemma deliverEntry_purged now c ids x :
  deliverEntry now c ids (purge1 now x)
  = deliverRecord now c ids <$> purge1 now x.
Proof.
  destruct x as [o|]; [|done]. unfold purge1.
  destruct (isExpired now o) eqn:Hx; [done|]. cbn [fmap option_fmap option_map].
  unfold deliverEntry, deliverRecord, lookupResult, lookupEntry.
  rewrite normalise_used, (normalise_notExpired _ _ Hx).
  destruct (str_is (otp_status o) "used") eqn:Hu; [|done].
  destruct (truthy (otp_status o)) eqn:T; [done|].
  by rewrite (truthy_false_not_used _ T) in Hu.
Qed.









Lemma elem_of_addCompleted_iff x c l :
  x ∈ addCompleted c l ↔ x = c ∨ x ∈ l.
Proof.
  unfold addCompleted. case_bool_decide as Hc.
  - split; [by right|]. by intros [->|?].
  - rewrite elem_of_app, list_elem_of_singleton. tauto.
Qed.


(** The record after a delivery, from the record before it. *)
Lemma deliverRecord_eq now c ids o :
  str_is (otp_status o) "used" = false →
  deliverRecord now c ids o =
  let n := normalise now o in
  let completed := addCompleted c (default [] (counters_completed n)) in
  let groups := deliverGroups c ids (items_by_counter n) in
  mkOrder (order_code n) groups (counters_involved n) (Some completed)
    (Some (allCompleted groups completed)) (otp_status n) (generated_by n)
    (created_at n) (Some now) (expires_at n) (used_at n) (other n).
Proof.
  intros Hu. unfold deliverRecord. rewrite Hu.
  by rewrite markCounterDelivered_record_eq.
Qed.








(** One delivery to a record that is neither consumed nor a legacy record. *)
Lemma deliverRecord_plain now c ids o :
  str_is (otp_status o) "used" = false →
  truthy (otp_status o) = true →
  deliverRecord now c ids o =
  let completed := addCompleted c (default [] (counters_completed o)) in
  let groups := deliverGroups c ids (items_by_counter o) in
  mkOrder (order_code o) groups (counters_involved o) (Some completed)
    (Some (allCompleted groups completed)) (otp_status o) (generated_by o)
    (created_at o) (Some now) (expires_at o) (used_at o) (other o).
Proof.
  intros Hu Ht. rewrite deliverRecord_eq by done.
  by rewrite (normalise_idemp _ _ Ht).
Qed.

Lemma deliverRecord_status now c ids o :
  otp_status (deliverRecord now c ids o) = otp_status (normalise now o) ∨
  (str_is (otp_status o) "used" = true ∧ deliverRecord now c ids o = o).
Proof.
  destruct (str_is (otp_status o) "used") eqn:Hu.
  - right. split; [done|]. unfold deliverRecord. by rewrite Hu.
  - left. by rewrite deliverRecord_eq.
Qed.







Lemma tracks_mergeAll code t0 st : tracks code t0 st (mergeAll st !! code).
Proof. intros t _. apply lookup_view. Qed.

Lemma tracks_markCounterDelivered code t0 now c ids st x :
  tracks code t0 st x → t0 ≤ now →
  tracks code now (markCounterDelivered now code c ids st).2
    (deliverRecord now c ids <$> purge1 now x).
Proof.
  intros Hx Hle t Ht. rewrite view_markCounterDelivered by done.
  rewrite lookup_purge_partial_alter, decide_True by done.
  by rewrite (Hx now Hle), deliverEntry_purged.
Qed.




(** ** C6: the code generator returns, and returns a well-formed code *)

Lemma charAt_letters i :
  (i < 26)%nat → ∃ c, charAt i letters = String c "" ∧ isUpper c = true.
Proof.
  intros Hi.
  do 26 (destruct i as [|i]; [eexists; split; reflexivity|]). lia.
Qed.

Lemma charAt_numbers i :
  (i < 10)%nat → ∃ c, charAt i numbers = String c "" ∧ isDigit c = true.
Proof.
  intros Hi.
  do 10 (destruct i as [|i]; [eexists; split; reflexivity|]). lia.
Qed.

Lemma drawCode_isOrderCode d : drawInRange d → isOrderCode (drawCode d) = true.
Proof.
  intros (H1 & H2 & H3 & H4 & H5 & H6). unfold drawCode.
  destruct (charAt_letters _ H1) as (a & -> & Ha).
  destruct (charAt_letters _ H2) as (b & -> & Hb).
  destruct (charAt_numbers _ H3) as (c & -> & Hc).
  destruct (charAt_numbers _ H4) as (e & -> & He).
  destruct (charAt_numbers _ H5) as (f & -> & Hf).
  destruct (charAt_numbers _ H6) as (g & -> & Hg).
  simpl. by rewrite Ha, Hb, Hc, He, Hf, Hg.
Qed.

Lemma allDigits_string_of_uint d :
  allDigits (NilEmpty.string_of_uint d) = true.
Proof. induction d; cbn; by rewrite ?IHd. Qed.

Lemma length_string_of_uint d :
  String.length (NilEmpty.string_of_uint d) = Decimal.nb_digits d.
Proof. induction d; cbn; by rewrite ?IHd. Qed.

Lemma allDigits_substring n m s :
  allDigits s = true → allDigits (substring n m s) = true.
Proof.
  revert n m. induction s as [|c s IH]; intros n m Hs.
  - by destruct n, m.
  - cbn in Hs. apply andb_true_iff in Hs as [Hc Hs].
    destruct n as [|n], m as [|m]; cbn; try done.
    + by rewrite Hc, IH.
    + by apply IH.
    + by apply IH.
Qed.

Lemma length_substring n m s :
  (n + m ≤ String.length s)%nat → String.length (substring n m s) = m.
Proof.
  revert n m. induction s as [|c s IH]; intros n m Hle.
  - cbn in Hle. by destruct n, m; try lia.
  - cbn in Hle. destruct n as [|n], m as [|m]; cbn; try done.
    + f_equal. apply (IH 0%nat). lia.
    + apply IH. lia.
    + apply IH. lia.
Qed.

(** The value of a decimal number read from its last digit is below the
    power of ten of its length. *)
Lemma of_lu_bound d :
  (DecimalPos.Unsigned.of_lu d < 10 ^ N.of_nat (Decimal.nb_digits d))%N.
Proof.
  induction d; cbn [DecimalPos.Unsigned.of_lu Decimal.nb_digits];
    rewrite ?Nat2N.inj_succ, ?N.pow_succ_r'; cbn; lia.
Qed.

(** A number from 1000 on is written with at least four digits. *)
Lemma nb_digits_to_uint p :
  (1000 ≤ Z.pos p) → (4 ≤ Decimal.nb_digits (Pos.to_uint p))%nat.
Proof.
  intros Hp. pose proof (DecimalPos.Unsigned.of_to p) as Hof.
  rewrite DecimalPos.Unsigned.of_uint_alt in Hof.
  pose proof (of_lu_bound (Decimal.rev (Pos.to_uint p))) as Hb.
  rewrite Hof, DecimalFacts.nb_digits_rev in Hb.
  destruct (Decimal.nb_digits (Pos.to_uint p)) as [|[|[|[|k]]]];
    cbn in Hb; lia.
Qed.

Lemma isOrderCode_OR s :
  String.length s = 4%nat → allDigits s = true →
  isOrderCode ("OR" +:+ s) = true.
Proof.
  destruct s as [|a [|b [|c [|d [|e r]]]]]; try discriminate.
  intros _ H. cbn in H. cbv -[isDigit].
  by destruct (isDigit a), (isDigit b), (isDigit c), (isDigit d).
Qed.

Lemma string_of_uint_nonnil d :
  d ≠ Decimal.Nil →
  NilZero.string_of_uint d = NilEmpty.string_of_uint d.
Proof. by destruct d. Qed.

Lemma fallbackCode_isOrderCode now :
  1000 ≤ now → isOrderCode (fallbackCode now) = true.
Proof.
  intros Hnow. destruct now as [|p|p]; try lia.
  unfold fallbackCode, toString, slice_last.
  change (Z.to_int (Z.pos p)) with (Decimal.Pos (Pos.to_uint p)).
  unfold NilZero.string_of_int.
  rewrite string_of_uint_nonnil by apply DecimalPos.Unsigned.to_uint_nonnil.
  pose proof (nb_digits_to_uint p Hnow) as Hlen.
  rewrite <- length_string_of_uint in Hlen.
  apply isOrderCode_OR.
  - apply length_substring. lia.
  - apply allDigits_substring, allDigits_string_of_uint.
Qed.

Lemma generateLoop_returns fuel now random attempts st :
  (maxAttempts ≤ attempts + fuel)%nat → (0 < fuel)%nat →
  ∃ code n st',
    generateLoop fuel now random attempts st = Some (code, n, st') ∧
    (attempts < n)%nat ∧ (n ≤ Nat.max maxAttempts (S attempts))%nat ∧
    ((n < maxAttempts)%nat ∧ code = drawCode (random (n - 1)%nat) ∨
     (maxAttempts ≤ n)%nat ∧ code = fallbackCode now).
Proof.
  revert attempts st.
  induction fuel as [|fuel IH]; intros attempts st Hfuel Hpos; [lia|].
  cbn [generateLoop]. case_bool_decide as Hmax.
  - eexists _, _, _. split; [done|]. split_and!; [lia|lia|]. by right.
  - destruct (getOrderByCode now (drawCode (random attempts)) st)
      as [[order|] st1].
    + destruct (IH (S attempts) st1) as (code & n & st' & -> & H1 & H2 & H3);
        [lia|lia|].
      eexists _, _, _. split; [done|]. split_and!; [lia|lia|done].
    + eexists _, _, _. split; [done|]. split_and!; [lia|lia|].
      left. split; [lia|]. cbn. by rewrite Nat.sub_0_r.
Qed.

(** C6: for a clock that reads at least 1000 (any instant after the first
    second of 1970) and draws that [Math.random] can produce,
    [generateOrderCode] returns after at most 100 attempts; at the 100th
    it returns the timestamp-derived code, before that the code it drew;
    in both cases two upper-case letters followed by four digits. *)
Theorem generateOrderCode_terminates now random st :
  1000 ≤ now →
  (∀ k, drawInRange (random k)) →
  ∃ code attempts st',
    generateOrderCode now random st = Some (code, attempts, st') ∧
    (1 ≤ attempts ≤ 100)%nat ∧
    (attempts = 100%nat → code = fallbackCode now) ∧
    (attempts < 100 → code = drawCode (random (attempts - 1)))%nat ∧
    isOrderCode code = true.
Proof.
  intros Hnow Hrandom. unfold generateOrderCode.
  destruct (generateLoop_returns maxAttempts now random 0 st)
    as (code & n & st' & -> & H1 & H2 & H3); [lia|unfold maxAttempts; lia|].
  unfold maxAttempts in *.
  exists code, n, st'. split; [done|]. split_and!; try lia.
  - intros ->. destruct H3 as [[? _]|[_ ->]]; [lia|done].
  - intros Hn. destruct H3 as [[_ ->]|[? _]]; [done|lia].
  - destruct H3 as [[_ ->]|[_ ->]].
    + by apply drawCode_isOrderCode.
    + by apply fallbackCode_isOrderCode.
Qed.

Lemma generateOrderCode_terminates_witness :
  ∃ code attempts st',
    generateOrderCode 1730000005000 sameDraw fallbackStorage
    = Some (code, attempts, st') ∧
    isOrderCode code = true.
Proof.
  destruct (generateOrderCode_terminates 1730000005000 sameDraw
              fallbackStorage) as (code & n & st' & H & _ & _ & _ & Hcode).
  - lia.
  - intros k. unfold drawInRange, sameDraw. cbn. lia.
  - exists code, n, st'. split; [exact H|exact Hcode].
Defined.

(** ** C5: the generated code and the codes in the store *)

(** A lookup does not change whether a later lookup finds a code. *)
Lemma getOrderByCode_after_lookup now st c c' :
  (getOrderByCode now c (getOrderByCode now c' st).2).1 = None ↔
  (getOrderByCode now c st).1 = None.
Proof.
  rewrite !getOrderByCode_fst, (view_getOrderByCode now now) by done.
  rewrite lookup_purge_partial_alter. case_decide as Hc;
    [subst c'|by rewrite purge1_view].
  destruct (view now st !! c) as [o0|] eqn:E; [|done].
  pose proof (view_notExpired _ _ _ _ E) as Hx.
  cbn [lookupEntry]. destruct (truthy (otp_status o0)) eqn:T.
  - unfold purge1. by rewrite Hx.
  - unfold purge1.
    change (isExpired now (set_updated_at now (upgradeLegacy now o0)))
      with (isExpired now (upgradeLegacy now o0)).
    pose proof (normalise_notExpired now o0 Hx) as Hn.
    unfold normalise in Hn. rewrite T in Hn. rewrite Hn.
    unfold lookupResult, normalise. rewrite T.
    change (truthy (otp_status (set_updated_at now (upgradeLegacy now o0))))
      with true. cbn iota.
    change (str_is (otp_status (set_updated_at now (upgradeLegacy now o0)))
              "used") with false.
    change (str_is (otp_status (upgradeLegacy now o0)) "used") with false.
    cbn iota.
    change (isExpired now (set_updated_at now (upgradeLegacy now o0)))
      with (isExpired now (upgradeLegacy now o0)).
    by rewrite Hn.
Qed.

Lemma generateLoop_fresh fuel now random attempts st code n st' :
  generateLoop fuel now random attempts st = Some (code, n, st') →
  (n < maxAttempts)%nat →
  (getOrderByCode now code st).1 = None.
Proof.
  revert attempts st.
  induction fuel as [|fuel IH]; intros attempts st; [done|].
  cbn [generateLoop]. case_bool_decide as Hmax.
  - intros [= <- <- <-]. lia.
  - destruct (getOrderByCode now (drawCode (random attempts)) st)
      as [[order|] st1] eqn:E.
    + intros Hloop Hn.
      replace st1
        with (getOrderByCode now (drawCode (random attempts)) st).2 in Hloop
        by (by rewrite E).
      apply IH in Hloop; [|done].
      by apply getOrderByCode_after_lookup in Hloop.
    + intros [= <- <- <-] _. by rewrite E.
Qed.

(** C5, as stated, fails on the fallback path: with [OR5000] active in the
    store and every draw colliding with it, the generator returns
    [OR5000] at the 100th attempt, five seconds past an instant whose
    last four digits are 0000. *)
Lemma returnsUnusedCode_counterexample :
  ¬ returnsUnusedCode 1730000005000 sameDraw fallbackStorage.
Proof.
  intros H.
  assert (Hc : (λ r : string * nat * Storage, r.1)
                 <$> generateOrderCode 1730000005000 sameDraw fallbackStorage
               = Some ("OR5000", 100%nat)) by (vm_compute; reflexivity).
  assert (Hv : otp_status
                 <$> view 1730000005000 fallbackStorage !! "OR5000"
               = Some (Some "active")) by (vm_compute; reflexivity).
  destruct (generateOrderCode 1730000005000 sameDraw fallbackStorage)
    as [[[code n] st']|] eqn:E; [|discriminate Hc].
  injection Hc as -> ->.
  destruct (view 1730000005000 fallbackStorage !! "OR5000") as [o|] eqn:Ho;
    [|discriminate Hv].
  injection Hv as Hv. by apply (H "OR5000" 100%nat st' E o Ho).
Qed.

(** C5, amended: a code that [generateOrderCode] returns from a draw, that
    is after fewer than 100 attempts, is a code for which [getOrderByCode]
    returns [null] in the store: the store shows no order under it, or a
    consumed one, so it is the code of no active order.  (The code of the
    100th attempt is returned without a lookup.) *)
Theorem generateOrderCode_draw_unused now random st code attempts st' :
  generateOrderCode now random st = Some (code, attempts, st') →
  (attempts < 100)%nat →
  (getOrderByCode now code st).1 = None ∧
  ∀ o, view now st !! code = Some o → otp_status o = Some "used".
Proof.
  intros Hgen Hn. apply generateLoop_fresh in Hgen; [|done].
  split; [done|]. intros o Ho.
  rewrite getOrderByCode_fst, Ho in Hgen. unfold lookupResult in Hgen.
  rewrite normalise_used in Hgen.
  rewrite (normalise_notExpired now o (view_notExpired _ _ _ _ Ho)) in Hgen.
  destruct (str_is (otp_status o) "used") eqn:Hu; [|done].
  by apply bool_decide_eq_true in Hu.
Qed.

Lemma generateOrderCode_draw_unused_witness :
  ∃ code attempts st',
    generateOrderCode 1730000005000 (λ k, mkDraw 14 17 5 0 0 k) fallbackStorage
    = Some (code, attempts, st') ∧
    (getOrderByCode 1730000005000 code fallbackStorage).1 = None.
Proof.
  destruct (generateOrderCode 1730000005000 (λ k, mkDraw 14 17 5 0 0 k)
              fallbackStorage) as [[[code n] st']|] eqn:E.
  - exists code, n, st'. split; [done|].
    apply (generateOrderCode_draw_unused _ _ _ _ _ _ E).
    apply (f_equal (fmap (λ r : string * nat * Storage, r.1.2))) in E.
    vm_compute in E. injection E as <-. lia.
  - apply (f_equal (fmap (λ r : string * nat * Storage, r.1.2))) in E.
    vm_compute in E. discriminate E.
Defined.

(** * Further properties of the service and of its callers *)

(** ** Reads *)

Lemma writeAll_writeAll orders ls :
  writeAll orders (writeAll orders ls) = writeAll orders ls.
Proof.
  apply map_eq; intros k. rewrite !writeAll_lookup.
  by case_bool_decide.
Qed.

(** X1: a read leaves nothing behind that a read can see.  A second
    [getAllOrders] at the same instant returns the same map and leaves
    the store exactly as the first call left it; and a read at a later
    instant returns what it would have returned without the earlier
    read. *)
Theorem getAllOrders_idempotent (now t : Z) st :
  now ≤ t →
  getAllOrders now (getAllOrders now st).2 = getAllOrders now st ∧
  (getAllOrders t (getAllOrders now st).2).1 = (getAllOrders t st).1.
Proof.
  intros Hle. split.
  - rewrite (getAllOrders_eq now (getAllOrders now st).2).
    rewrite (getAllOrders_eq now st) at 3.
    rewrite view_getAllOrders by done. f_equal.
    destruct (decide (view now st = ∅)) as [He|Hne].
    + rewrite (getAllOrders_snd_empty now st He).
      by apply getAllOrders_snd_empty.
    + rewrite getAllOrders_snd_nonempty
        by (by rewrite view_getAllOrders).
      rewrite view_getAllOrders by done.
      rewrite (getAllOrders_snd_nonempty now st Hne). cbn [localStorage sessionStorage].
      by rewrite writeAll_writeAll.
  - by rewrite !getAllOrders_fst, view_getAllOrders.
Qed.

Lemma getAllOrders_idempotent_witness :
  getAllOrders 2000 (getAllOrders 2000 staleBackupStorage).2
  = getAllOrders 2000 staleBackupStorage.
Proof.
  exact (proj1 (getAllOrders_idempotent 2000 2000 staleBackupStorage
                  (Z.le_refl 2000))).
Defined.

Lemma union_assoc_option {A} (a b c : option A) : a ∪ (b ∪ c) = a ∪ b ∪ c.
Proof. by destruct a, b, c. Qed.

Lemma storedOrder_slotOrders key code st :
  storedOrder key code st = slotOrders (localStorage st !! key) !! code.
Proof. unfold storedOrder. by destruct (localStorage st !! key) as [[|m]|]. Qed.

Lemma backupOrder_slotOrders code st :
  backupOrder code st = slotOrders (sessionStorage st !! backupKey) !! code.
Proof. unfold backupOrder. by destruct (sessionStorage st !! backupKey) as [[|m]|]. Qed.

Lemma mergeAll_lookup st code :
  mergeAll st !! code =
    backupOrder code st ∪
    storedOrder "kgbites_cross_port_orders" code st ∪
    storedOrder "kgbites_staff_orders" code st ∪
    storedOrder "kgbites_student_orders" code st ∪
    storedOrder "kgbites_shared_orders" code st ∪
    storedOrder "kgbites_orders" code st.
Proof.
  rewrite !storedOrder_slotOrders, backupOrder_slotOrders.
  unfold mergeAll, allKeys. cbn [foldl]. rewrite !readSlot_union.
  rewrite !lookup_union, lookup_empty, union_None_r.
  by rewrite !union_assoc_option.
Qed.

(** X2: which copy [getAllOrders] shows for a code.  It is the copy of
    the first mirror that holds one, in the order session backup,
    [kgbites_cross_port_orders], [kgbites_staff_orders],
    [kgbites_student_orders], [kgbites_shared_orders], [kgbites_orders]
    (a missing key or a text that does not parse holds none); and if that
    copy is past its [expires_at], the code is not shown at all, whatever
    the mirrors after it hold. *)
Theorem getAllOrders_precedence now st code :
  (getAllOrders now st).1 !! code =
    purge1 now
      (backupOrder code st ∪
       storedOrder "kgbites_cross_port_orders" code st ∪
       storedOrder "kgbites_staff_orders" code st ∪
       storedOrder "kgbites_student_orders" code st ∪
       storedOrder "kgbites_shared_orders" code st ∪
       storedOrder "kgbites_orders" code st).
Proof. by rewrite getAllOrders_fst, lookup_view, mergeAll_lookup. Qed.

(** ** Saving and looking up *)

Lemma isExpired_orderWithOTP (now t : Z) origin orderData :
  isExpired t (orderWithOTP now origin orderData)
  = bool_decide (now + DAY_MS < t).
Proof. done. Qed.

Lemma lookupResult_active t o :
  otp_status o = Some "active" →
  lookupResult t (Some o) = if isExpired t o then None else Some o.
Proof.
  intros Ha. unfold lookupResult, normalise. rewrite Ha.
  change (truthy (Some "active")) with true. cbn iota. rewrite Ha.
  change (str_is (Some "active") "used") with false. done.
Qed.

Lemma lookup_after_save (now t : Z) origin orderData st :
  (getOrderByCode t (propertyKey (order_code orderData))
     (saveOrder now origin orderData st).2).1
  = if bool_decide (now + DAY_MS < t) then None
    else Some (orderWithOTP now origin orderData).
Proof.
  rewrite getOrderByCode_fst, view_saveOrder, lookup_purge, lookup_insert_eq.
  unfold purge1. rewrite isExpired_orderWithOTP.
  case_bool_decide as Hx; [done|].
  rewrite lookupResult_active by done.
  rewrite isExpired_orderWithOTP. by rewrite bool_decide_eq_false_2.
Qed.

(** X3: saving and looking up.  After [saveOrder(orderData)] at [now],
    whatever the store held under the code before, [getOrderByCode]
    returns the order data with [created_at = updated_at = now],
    [otp_status = 'active'], the origin and [expires_at = now + 24h], at
    every instant up to and including [now + 24h]; after that instant
    it returns [null] and [getAllOrders] no longer lists the code.  (An
    order without [order_code] is filed under ['undefined'].) *)
Theorem saveOrder_then_getOrderByCode (now t : Z) origin orderData st :
  let code := propertyKey (order_code orderData) in
  let st' := (saveOrder now origin orderData st).2 in
  (t ≤ now + DAY_MS →
     (getOrderByCode t code st').1 = Some (orderWithOTP now origin orderData)) ∧
  (now + DAY_MS < t →
     (getOrderByCode t code st').1 = None ∧
     (getAllOrders t st').1 !! code = None).
Proof.
  cbv zeta. split.
  - intros Ht. rewrite lookup_after_save. by rewrite bool_decide_eq_false_2 by lia.
  - intros Ht. split.
    + rewrite lookup_after_save. by rewrite bool_decide_eq_true_2 by lia.
    + rewrite getAllOrders_fst, view_saveOrder, lookup_purge, lookup_insert_eq.
      unfold purge1. rewrite isExpired_orderWithOTP.
      by rewrite bool_decide_eq_true_2 by lia.
Qed.

(** ** Calls and the other codes *)

Lemma view_runOp (now t : Z) op st code :
  now ≤ t → callCode (CallOp op) ≠ Some code →
  view t (runOp now op st) !! code = view t st !! code.
Proof.
  intros Hle Hc.
  assert (Hp : ∀ f c, c ≠ code →
            purge t (partial_alter f c (view now st)) !! code
            = view t st !! code).
  { intros f c Hne. rewrite lookup_purge_partial_alter.
    rewrite decide_False by done.
    by rewrite <- lookup_purge, view_later. }
  destruct op as [|c|c counter ids|res c|c]; cbn [runOp].
  - by rewrite view_getAllOrders.
  - rewrite view_getOrderByCode by done. apply Hp. naive_solver.
  - rewrite view_markCounterDelivered by done. apply Hp. naive_solver.
  - rewrite view_syncOrderStatusFromServer by done. apply Hp. naive_solver.
  - by rewrite view_markOrderAsUsed.
Qed.

(** X4: a call made for one code leaves every other code alone.  After
    [getAllOrders], [getOrderByCode], [markCounterDelivered],
    [syncOrderStatusFromServer], [markOrderAsUsed], [updateOrder] or
    [saveOrder], every later read shows under any other code exactly what
    it would have shown without the call. *)
Theorem calls_leave_other_codes (now t : Z) call st code :
  now ≤ t → callCode call ≠ Some code →
  view t (runCall now call st) !! code = view t st !! code.
Proof.
  intros Hle Hc. destruct call as [op|c u|origin orderData]; cbn [runCall].
  - by apply view_runOp.
  - rewrite view_updateOrder by done. rewrite lookup_purge_partial_alter.
    rewrite decide_False by (cbn in Hc; congruence).
    by rewrite <- lookup_purge, view_later.
  - rewrite view_saveOrder, lookup_purge.
    rewrite lookup_insert_ne by (cbn in Hc; congruence).
    by rewrite <- lookup_purge, view_later.
Qed.

Lemma calls_leave_other_codes_witness :
  view 3000
    (runCall 2000 (CallOp (OpDeliver "KB0001" "Snacks" [7]))
       (saveOrder 1000 sampleOrigin sampleOrder firstTab).2) !! "TS1234"
  = view 3000 (saveOrder 1000 sampleOrigin sampleOrder firstTab).2 !! "TS1234".
Proof.
  apply (calls_leave_other_codes 2000 3000
           (CallOp (OpDeliver "KB0001" "Snacks" [7]))).
  - lia.
  - discriminate.
Defined.

(** ** A code that the store does not show *)

(** X5: a code that the store does not show (it was never saved, or its
    order is past its expiry).  [getOrderByCode] and
    [syncOrderStatusFromServer] return [null], [updateOrder],
    [markCounterDelivered] and [markOrderAsUsed] return [false], and no
    call other than [saveOrder] makes a later read show the code: an
    expired order does not come back. *)
Theorem absent_code_refused now code st :
  view now st !! code = None →
  (getOrderByCode now code st).1 = None ∧
  (∀ updates, (updateOrder now code updates st).1 = false) ∧
  (∀ counter ids, (markCounterDelivered now code counter ids st).1 = false) ∧
  (markOrderAsUsed now code st).1 = false ∧
  (∀ res, (syncOrderStatusFromServer now res code st).1 = None) ∧
  (∀ call t, (∀ origin orderData, call ≠ CallSave origin orderData) →
     now ≤ t → view t (runCall now call st) !! code = None).
Proof.
  intros Hv. split_and!.
  - by rewrite getOrderByCode_fst, Hv.
  - intros u. by rewrite updateOrder_fst, Hv.
  - intros c ids. by rewrite markCounterDelivered_fst, Hv.
  - by rewrite markOrderAsUsed_fst, Hv.
  - intros res. by rewrite syncOrderStatusFromServer_fst, Hv.
  - intros call t Hns Hle.
    assert (Hp : ∀ f c, f None = None →
              purge t (partial_alter f c (view now st)) !! code = None).
    { intros f c Hf. rewrite lookup_purge_partial_alter.
      case_decide as Hc; [subst c; by rewrite Hv, Hf|by rewrite Hv]. }
    assert (Hl : view t st !! code = None).
    { by rewrite <- (view_later now t st Hle), lookup_purge, Hv. }
    destruct call as [[|c|c counter ids|res c|c]|c u|origin orderData];
      cbn [runCall runOp].
    + by rewrite view_getAllOrders.
    + rewrite view_getOrderByCode by done. by apply Hp.
    + rewrite view_markCounterDelivered by done. by apply Hp.
    + rewrite view_syncOrderStatusFromServer by done. by apply Hp.
    + by rewrite view_markOrderAsUsed.
    + rewrite view_updateOrder by done. by apply Hp.
    + by destruct (Hns origin orderData).
Qed.

Lemma absent_code_refused_witness :
  (getOrderByCode 2000 "ZZ9999" savedStorage).1 = None ∧
  (markCounterDelivered 2000 "ZZ9999" "Snacks" [2] savedStorage).1 = false.
Proof.
  assert (Hv : view 2000 savedStorage !! "ZZ9999" = None)
    by (vm_compute; reflexivity).
  destruct (absent_code_refused 2000 "ZZ9999" savedStorage Hv)
    as (H1 & _ & H3 & _).
  split; [exact H1 | exact (H3 "Snacks" [2])].
Defined.

(** ** What the answer of the server does to later calls *)

Lemma view_after_sync (now t : Z) res code st cur u :
  view now st !! code = Some cur →
  syncUpdates now res cur = Some u →
  now ≤ t →
  view t (syncOrderStatusFromServer now res code st).2 !! code
  = if isExpired t cur then None
    else Some (set_updated_at now (spread cur u)).
Proof.
  intros Hv Hu Hle. rewrite view_syncOrderStatusFromServer by done.
  rewrite lookup_purge_partial_alter, decide_True, Hv by done.
  cbn [syncEntry]. rewrite Hu. unfold purge1.
  replace (isExpired t (set_updated_at now (spread cur u)))
    with (isExpired t cur); [done|].
  unfold isExpired. cbn [expires_at set_updated_at spread].
  by rewrite (syncUpdates_expires_at _ _ _ _ Hu), union_None_l.
Qed.

Lemma used_entry_refused t code st o :
  view t st !! code = Some o → otp_status o = Some "used" →
  (getOrderByCode t code st).1 = None ∧
  (∀ counter ids,
     (markCounterDelivered t code counter ids st).1 = false ∧
     ∀ t', t ≤ t' →
       view t' (markCounterDelivered t code counter ids st).2 = view t' st) ∧
  (markOrderAsUsed t code st).1 = false.
Proof.
  intros Hv Hu.
  assert (Hl : lookupResult t (Some o) = None).
  { unfold lookupResult. rewrite normalise_used, Hu. done. }
  split_and!.
  - by rewrite getOrderByCode_fst, Hv.
  - intros c ids. split; [by rewrite markCounterDelivered_fst, Hv, Hl|].
    intros t' Ht'. rewrite view_markCounterDelivered by done.
    rewrite partial_alter_fix; [by rewrite view_later|].
    rewrite Hv. unfold deliverEntry. rewrite Hl. cbn [lookupEntry].
    rewrite Hu. done.
  - rewrite markOrderAsUsed_fst, Hv, Hu. done.
Qed.

(** X6: after the server answered ['used'] for an order that the store
    shows, the code no longer works: at every later instant
    [getOrderByCode] returns [null], [markCounterDelivered] returns
    [false] and changes nothing that a read shows, and [markOrderAsUsed]
    returns [false]. *)
Theorem used_answer_ends_deliveries (now t : Z) res code st cur :
  view now st !! code = Some cur →
  status res = Some "used" →
  now ≤ t →
  let st' := (syncOrderStatusFromServer now res code st).2 in
  (getOrderByCode t code st').1 = None ∧
  (∀ counter ids,
     (markCounterDelivered t code counter ids st').1 = false ∧
     ∀ t', t ≤ t' →
       view t' (markCounterDelivered t code counter ids st').2 = view t' st') ∧
  (markOrderAsUsed t code st').1 = false.
Proof.
  intros Hv Hs Hle. cbv zeta.
  pose proof (view_after_sync now t res code st cur _ Hv
                (syncUpdates_used now res cur Hs) Hle) as Ha.
  destruct (isExpired t cur).
  - split_and!.
    + by rewrite getOrderByCode_fst, Ha.
    + intros c ids. split; [by rewrite markCounterDelivered_fst, Ha|].
      intros t' Ht'. rewrite view_markCounterDelivered by done.
      rewrite partial_alter_fix; [by rewrite view_later|]. by rewrite Ha.
    + by rewrite markOrderAsUsed_fst, Ha.
  - eapply used_entry_refused; [exact Ha|]. cbn. by rewrite union_Some_l.
Qed.

Lemma used_answer_ends_deliveries_witness :
  (markCounterDelivered 2000 "TS1234" "Snacks" [2; 3] usedStorage).1 = false.
Proof.
  assert (Hv : view 1500 savedStorage !! "TS1234"
               = Some (orderWithOTP 1000 sampleOrigin sampleOrder))
    by (vm_compute; reflexivity).
  assert (Hle : 1500 ≤ 2000) by lia.
  destruct (used_answer_ends_deliveries 1500 2000
              (mkStatusRes (Some "used") (Some 1400)) "TS1234" savedStorage
              _ Hv eq_refl Hle) as (_ & H & _).
  exact (proj1 (H "Snacks" [2; 3])).
Defined.

Lemma lookupResult_truthy t o :
  truthy (otp_status o) = true → otp_status o ≠ Some "used" →
  isExpired t o = false → lookupResult t (Some o) = Some o.
Proof.
  intros Ht Hu Hx. unfold lookupResult. rewrite normalise_idemp by done.
  unfold str_is. rewrite bool_decide_eq_false_2 by done. by rewrite Hx.
Qed.

(** X7: an answer ['expired'] of the server does not stop the code.
    The local copy gets [otp_status = 'expired'], but until its own
    [expires_at] has passed [getOrderByCode] still returns the order and
    [markCounterDelivered] still succeeds: the lookup refuses only the
    status ['used'] and a passed [expires_at]. *)
Theorem expired_answer_keeps_code_usable (now t : Z) res code st cur :
  view now st !! code = Some cur →
  status res = Some "expired" →
  now ≤ t → isExpired t cur = false →
  let st' := (syncOrderStatusFromServer now res code st).2 in
  ∃ o, (getOrderByCode t code st').1 = Some o ∧
       otp_status o = Some "expired" ∧
       ∀ counter ids, (markCounterDelivered t code counter ids st').1 = true.
Proof.
  intros Hv Hs Hle Hx. cbv zeta.
  pose proof (view_after_sync now t res code st cur _ Hv
                (syncUpdates_expired now res cur Hs) Hle) as Ha.
  rewrite Hx in Ha.
  assert (Hl : lookupResult t
                 (Some (set_updated_at now
                          (spread cur (set_otp_status "expired" emptyObj))))
               = Some (set_updated_at now
                         (spread cur (set_otp_status "expired" emptyObj)))).
  { apply lookupResult_truthy.
    - cbn. by rewrite union_Some_l.
    - cbn. by rewrite union_Some_l.
    - unfold isExpired in *. cbn. by rewrite union_None_l. }
  eexists. split_and!.
  - by rewrite getOrderByCode_fst, Ha, Hl.
  - cbn. by rewrite union_Some_l.
  - intros c ids. by rewrite markCounterDelivered_fst, Ha, Hl.
Qed.

Lemma expired_answer_keeps_code_usable_witness :
  ∃ o, (getOrderByCode 2000 "TS1234"
          (syncOrderStatusFromServer 1500 (mkStatusRes (Some "expired") None)
             "TS1234" savedStorage).2).1 = Some o ∧
       otp_status o = Some "expired".
Proof.
  assert (Hv : view 1500 savedStorage !! "TS1234"
               = Some (orderWithOTP 1000 sampleOrigin sampleOrder))
    by (vm_compute; reflexivity).
  assert (Hle : 1500 ≤ 2000) by lia.
  destruct (expired_answer_keeps_code_usable 1500 2000
              (mkStatusRes (Some "expired") None) "TS1234" savedStorage
              _ Hv eq_refl Hle eq_refl) as (o & H1 & H2 & _).
  exists o. split; [exact H1 | exact H2].
Defined.

(** X8: an answer ['active'] of the server makes a consumed code work
    again.  For an order with [otp_status = 'used'], which
    [getOrderByCode] refuses, the call sets [otp_status = 'active'] and
    keeps [used_at], [is_complete] and [counters_completed]; afterwards
    [getOrderByCode] returns the order and [markCounterDelivered]
    succeeds. *)
Theorem active_answer_reactivates (now t : Z) res code st cur :
  view now st !! code = Some cur →
  otp_status cur = Some "used" →
  status res = Some "active" →
  now ≤ t → isExpired t cur = false →
  let st' := (syncOrderStatusFromServer now res code st).2 in
  (getOrderByCode now code st).1 = None ∧
  ∃ o, (getOrderByCode t code st').1 = Some o ∧
       otp_status o = Some "active" ∧
       used_at o = used_at cur ∧ is_complete o = is_complete cur ∧
       counters_completed o = counters_completed cur ∧
       ∀ counter ids, (markCounterDelivered t code counter ids st').1 = true.
Proof.
  intros Hv Hu Hs Hle Hx. cbv zeta.
  split; [by apply (used_entry_refused now code st cur)|].
  pose proof (view_after_sync now t res code st cur _ Hv
                (syncUpdates_active now res cur Hs) Hle) as Ha.
  rewrite Hx in Ha.
  assert (Hl : lookupResult t
                 (Some (set_updated_at now
                          (spread cur (set_otp_status "active" emptyObj))))
               = Some (set_updated_at now
                         (spread cur (set_otp_status "active" emptyObj)))).
  { apply lookupResult_truthy.
    - cbn. by rewrite union_Some_l.
    - cbn. by rewrite union_Some_l.
    - unfold isExpired in *. cbn. by rewrite union_None_l. }
  eexists. split_and!.
  - by rewrite getOrderByCode_fst, Ha, Hl.
  - cbn. by rewrite union_Some_l.
  - cbn. by rewrite union_None_l.
  - cbn. by rewrite union_None_l.
  - cbn. by rewrite union_None_l.
  - intros c ids. by rewrite markCounterDelivered_fst, Ha, Hl.
Qed.

Lemma active_answer_reactivates_witness :
  (getOrderByCode 2000 "TS1234" usedStorage).1 = None ∧
  ∃ o, (getOrderByCode 2500 "TS1234"
          (syncOrderStatusFromServer 2000 (mkStatusRes (Some "active") None)
             "TS1234" usedStorage).2).1 = Some o ∧
       otp_status o = Some "active".
Proof.
  destruct (view 2000 usedStorage !! "TS1234") as [cur|] eqn:Hv;
    [|vm_compute in Hv; discriminate Hv].
  assert (Hu : view 2000 usedStorage !! "TS1234" ≫= otp_status = Some "used")
    by (vm_compute; reflexivity).
  assert (He : view 2000 usedStorage !! "TS1234" ≫= expires_at
               = Some (1000 + DAY_MS)) by (vm_compute; reflexivity).
  rewrite Hv in Hu, He. cbn [mbind option_bind] in Hu, He.
  assert (Hle : 2000 ≤ 2500) by lia.
  assert (Hx : isExpired 2500 cur = false).
  { unfold isExpired. rewrite He. apply bool_decide_eq_false.
    unfold DAY_MS. lia. }
  destruct (active_answer_reactivates 2000 2500
              (mkStatusRes (Some "active") None) "TS1234" usedStorage
              cur Hv Hu eq_refl Hle Hx) as (H0 & o & H1 & H2 & _).
  split; [exact H0|]. exists o. split; [exact H1 | exact H2].
Defined.

(** ** One delivery *)

(** The record that a successful delivery leaves under the code. *)
Lemma view_delivered now code c ids st order :
  (getOrderByCode now code st).1 = Some order →
  view now (markCounterDelivered now code c ids st).2 !! code
  = Some (set_updated_at now (markCounterDelivered_record c ids order)).
Proof.
  intros Hl. rewrite getOrderByCode_fst in Hl.
  rewrite view_markCounterDelivered by done.
  rewrite lookup_purge_partial_alter, decide_True by done.
  unfold deliverEntry. rewrite Hl.
  apply lookupResult_Some in Hl as (o0 & E & -> & Hu & Hx).
  rewrite markCounterDelivered_record_eq. cbv zeta.
  unfold purge1, isExpired in *. simpl. by rewrite Hx.
Qed.

Lemma markItems_itemAfter c ids items :
  markItems ids items = itemAfter c ids c <$> items.
Proof.
  unfold markItems. apply list_eq; intros i.
  rewrite list_lookup_fmap. change (map ?f ?l) with (f <$> l).
  rewrite list_lookup_fmap. destruct (items !! i) as [item|]; [|done].
  cbn. unfold itemAfter. f_equal. f_equal.
  rewrite (bool_decide_eq_true_2 (c = c)) by done.
  by destruct (delivered item), (bool_decide (item_id item ∈ ids)).
Qed.

Lemma itemAfter_other c ids counter item :
  counter ≠ c → itemAfter c ids counter item = item.
Proof.
  intros Hne. unfold itemAfter. rewrite bool_decide_eq_false_2 by done.
  cbn. rewrite orb_false_r. by destruct item.
Qed.

Lemma deliverGroups_lookup c ids g counter :
  (default ∅ (deliverGroups c ids (Some g))) !! counter
  = fmap (M := list) (itemAfter c ids counter) <$> g !! counter.
Proof.
  unfold deliverGroups. destruct (decide (counter = c)) as [->|Hne].
  - destruct (g !! c) as [items|] eqn:E; cbn.
    + by rewrite lookup_insert_eq, (markItems_itemAfter c).
    + by rewrite E.
  - assert (Hid : fmap (M := list) (itemAfter c ids counter)
                    <$> g !! counter = g !! counter).
    { destruct (g !! counter) as [l|]; [|done]. cbn. f_equal.
      rewrite <- (list_fmap_id l) at 2. apply list_fmap_ext.
      intros i x _. by apply itemAfter_other. }
    rewrite Hid.
    destruct (g !! c) as [items|]; cbn; [|done].
    by rewrite lookup_insert_ne.
Qed.

(** X9: what one successful [markCounterDelivered] does to the items.
    The order keeps its counter groups and, in each group, the same items
    in the same order with the same id, name and quantity; an item is
    delivered afterwards exactly if it was delivered before or it belongs
    to the group of the counter of the call and its id is listed. *)
Theorem delivery_marks_listed_items now code counterName deliveredItems st
    order groups :
  (getOrderByCode now code st).1 = Some order →
  items_by_counter order = Some groups →
  ∃ after groups',
    view now
      (markCounterDelivered now code counterName deliveredItems st).2 !! code
      = Some after ∧
    items_by_counter after = Some groups' ∧
    ∀ counter,
      groups' !! counter
      = fmap (M := list) (itemAfter counterName deliveredItems counter)
          <$> groups !! counter.
Proof.
  intros Hl Hg.
  rewrite (view_delivered now code counterName deliveredItems st order Hl).
  rewrite markCounterDelivered_record_eq. cbv zeta. rewrite Hg.
  eexists _, (default ∅ (deliverGroups counterName deliveredItems (Some groups))).
  split_and!; [reflexivity|..].
  - cbn. unfold deliverGroups. by destruct (groups !! counterName).
  - intros counter. apply deliverGroups_lookup.
Qed.

Lemma delivery_marks_listed_items_witness :
  ∃ after groups',
    view 2000 (markCounterDelivered 2000 "TS1234" "Snacks" [2] savedStorage).2
      !! "TS1234" = Some after ∧
    items_by_counter after = Some groups' ∧
    groups' !! "Snacks"
    = Some [mkItem 2 "Tea" 2 true; mkItem 3 "Samosa" 1 false].
Proof.
  destruct (delivery_marks_listed_items 2000 "TS1234" "Snacks" [2]
              savedStorage (orderWithOTP 1000 sampleOrigin sampleOrder)
              sampleGroups) as (after & groups' & Hv & Hg & Hi).
  - vm_compute. reflexivity.
  - reflexivity.
  - exists after, groups'. split; [exact Hv|]. split; [exact Hg|].
    rewrite (Hi "Snacks"). vm_compute. reflexivity.
Defined.

Lemma allCompleted_addCompleted_other g c l :
  g !! c = None →
  allCompleted (Some g) (addCompleted c l) = allCompleted (Some g) l.
Proof.
  intros Hc. apply Bool.eq_true_iff_eq. rewrite !allCompleted_spec.
  cbn. split; intros H counter Hin.
  - specialize (H counter Hin). apply elem_of_addCompleted_iff in H as [->|H];
      [|done].
    apply elem_of_Object_keys in Hin as [x Hx]. congruence.
  - apply elem_of_addCompleted_iff. right. by apply H.
Qed.

(** X10: a delivery at a counter that has no group in the order.  The
    call succeeds, leaves the items as they are and records the counter in
    [counters_completed] all the same; [is_complete] becomes what the
    counters recorded before the call make it. *)
Theorem delivery_at_foreign_counter now code counterName deliveredItems st
    order groups :
  (getOrderByCode now code st).1 = Some order →
  items_by_counter order = Some groups →
  groups !! counterName = None →
  (markCounterDelivered now code counterName deliveredItems st).1 = true ∧
  ∃ after,
    view now
      (markCounterDelivered now code counterName deliveredItems st).2 !! code
      = Some after ∧
    items_by_counter after = Some groups ∧
    counterName ∈ default [] (counters_completed after) ∧
    is_complete after
    = Some (allCompleted (Some groups) (default [] (counters_completed order))).
Proof.
  intros Hl Hg Hc. split.
  - rewrite markCounterDelivered_fst. rewrite getOrderByCode_fst in Hl.
    by rewrite Hl.
  - rewrite (view_delivered now code counterName deliveredItems st order Hl).
    rewrite markCounterDelivered_record_eq. cbv zeta. rewrite Hg.
    eexists. split_and!; [reflexivity|..].
    + cbn. by rewrite Hc.
    + cbn. apply elem_of_addCompleted.
    + cbn. rewrite Hc. by rewrite allCompleted_addCompleted_other.
Qed.

Lemma delivery_at_foreign_counter_witness :
  ∃ after,
    view 2000
      (markCounterDelivered 2000 "TS1234" "Juice" [] savedStorage).2
      !! "TS1234" = Some after ∧
    "Juice" ∈ default [] (counters_completed after) ∧
    is_complete after = Some false.
Proof.
  destruct (delivery_at_foreign_counter 2000 "TS1234" "Juice" []
              savedStorage (orderWithOTP 1000 sampleOrigin sampleOrder)
              sampleGroups) as (_ & after & Hv & _ & Hc & Hi).
  - vm_compute. reflexivity.
  - reflexivity.
  - vm_compute. reflexivity.
  - exists after. split; [exact Hv|]. split; [exact Hc|].
    rewrite Hi. vm_compute. reflexivity.
Defined.

(** ** The same delivery, twice *)

Lemma markItems_idemp ids items :
  markItems ids (markItems ids items) = markItems ids items.
Proof.
  unfold markItems. rewrite map_map. apply map_ext. intros item. cbn.
  by case_bool_decide.
Qed.

Lemma deliverGroups_idemp c ids groups :
  deliverGroups c ids (deliverGroups c ids groups) = deliverGroups c ids groups.
Proof.
  destruct groups as [g|]; [|done]. unfold deliverGroups.
  destruct (g !! c) as [items|] eqn:E.
  - by rewrite lookup_insert_eq, insert_insert_eq, markItems_idemp.
  - by rewrite E.
Qed.

Lemma addCompleted_idemp c l : addCompleted c (addCompleted c l) = addCompleted c l.
Proof.
  unfold addCompleted at 1. rewrite bool_decide_eq_true_2; [done|].
  apply elem_of_addCompleted.
Qed.

Lemma deliverRecord_again t1 t2 c ids o :
  str_is (otp_status o) "used" = false →
  deliverRecord t2 c ids (deliverRecord t1 c ids o)
  = set_updated_at t2 (deliverRecord t1 c ids o).
Proof.
  intros Hu.
  pose proof (normalise_truthy t1 o) as Ht.
  pose proof (normalise_used t1 o) as Hu1. rewrite Hu in Hu1.
  rewrite (deliverRecord_eq t1) by done. cbv zeta.
  rewrite deliverRecord_plain by done. cbv zeta.
  cbn [order_code items_by_counter counters_involved counters_completed
       is_complete otp_status generated_by created_at updated_at
       expires_at used_at other from_option id set_updated_at].
  by rewrite deliverGroups_idemp, addCompleted_idemp.
Qed.

(** X11: the same delivery made twice.  If [markCounterDelivered]
    succeeded, the same call made again later changes nothing in what a
    read shows for the order but [updated_at]. *)
Theorem delivery_twice (t1 t2 t : Z) code counterName deliveredItems st :
  (markCounterDelivered t1 code counterName deliveredItems st).1 = true →
  t1 ≤ t2 → t2 ≤ t →
  let st1 := (markCounterDelivered t1 code counterName deliveredItems st).2 in
  let st2 := (markCounterDelivered t2 code counterName deliveredItems st1).2 in
  view t st2 !! code = set_updated_at t2 <$> view t st1 !! code.
Proof.
  intros Hok H12 H2t. cbv zeta.
  pose proof (tracks_mergeAll code t1 st) as Tr0.
  pose proof (tracks_markCounterDelivered code t1 t1 counterName
                deliveredItems st _ Tr0 (Z.le_refl t1)) as Tr1.
  pose proof (tracks_markCounterDelivered code t1 t2 counterName
                deliveredItems _ _ Tr1 H12) as Tr2.
  rewrite (Tr2 t H2t), (Tr1 t (Z.le_trans _ _ _ H12 H2t)).
  rewrite markCounterDelivered_fst, lookup_view in Hok.
  apply bool_decide_eq_true in Hok as [n Hn].
  apply lookupResult_Some in Hn as (o & Ho & -> & Hu & _).
  rewrite Ho. cbn [fmap option_fmap option_map].
  rewrite normalise_used in Hu.
  set (r := deliverRecord t1 counterName deliveredItems o).
  assert (Hx : ∀ s, isExpired s (set_updated_at t2 r) = isExpired s r) by done.
  unfold purge1 at 2. destruct (isExpired t2 r) eqn:E2.
  - cbn. unfold purge1. by rewrite (isExpired_mono t2 t r H2t E2).
  - cbn [fmap option_fmap option_map]. unfold r at 1.
    rewrite deliverRecord_again by done. fold r.
    unfold purge1. rewrite Hx. by destruct (isExpired t r).
Qed.

Lemma delivery_twice_witness :
  view 4000
    (markCounterDelivered 3000 "TS1234" "Snacks" [2; 3]
       (markCounterDelivered 2000 "TS1234" "Snacks" [2; 3] savedStorage).2).2
    !! "TS1234"
  = set_updated_at 3000
      <$> view 4000
            (markCounterDelivered 2000 "TS1234" "Snacks" [2; 3] savedStorage).2
            !! "TS1234".
Proof.
  apply (delivery_twice 2000 3000 4000 "TS1234" "Snacks" [2; 3] savedStorage).
  - vm_compute. reflexivity.
  - lia.
  - lia.
Defined.

(** ** A legacy record is upgraded once *)

(** X12: a record without [otp_status] is upgraded by its first lookup
    only.  A second lookup within 24 hours of the first returns the
    record as the first one stored it, with the [expires_at] that the
    first lookup set. *)
Theorem legacy_upgrade_once (now t : Z) code st o :
  view now st !! code = Some o →
  truthy (otp_status o) = false →
  now ≤ t → t ≤ now + DAY_MS →
  (getOrderByCode t code (getOrderByCode now code st).2).1
  = Some (set_updated_at now (upgradeLegacy now o)).
Proof.
  intros Hv Ht Hle Hd.
  rewrite getOrderByCode_fst, view_getOrderByCode by done.
  rewrite lookup_purge_partial_alter, decide_True, Hv by done.
  cbn [lookupEntry]. rewrite Ht.
  assert (Hx : isExpired t (set_updated_at now (upgradeLegacy now o)) = false).
  { unfold isExpired. cbn. apply bool_decide_eq_false. lia. }
  unfold purge1. rewrite Hx. by apply lookupResult_truthy.
Qed.

Lemma legacy_upgrade_once_witness :
  (getOrderByCode (1000 + 3 * DAY_MS + 5000) "LG0001"
     (getOrderByCode (1000 + 3 * DAY_MS) "LG0001" legacyStorage).2).1
  ≫= expires_at = Some (1000 + 4 * DAY_MS).
Proof.
  rewrite (legacy_upgrade_once (1000 + 3 * DAY_MS) (1000 + 3 * DAY_MS + 5000)
             "LG0001" legacyStorage legacyOrder).
  - vm_compute. reflexivity.
  - vm_compute. reflexivity.
  - reflexivity.
  - lia.
  - unfold DAY_MS. lia.
Defined.

(** ** [clearAllOrders] *)

Lemma mergeAll_clear_after_write orders st :
  mergeAll (clearAllOrders (writeEverywhere orders st)) = orders.
Proof.
  unfold clearAllOrders, writeEverywhere, mergeAll, allKeys, storageKey.
  cbn [localStorage sessionStorage foldl].
  rewrite lookup_delete_eq, !lookup_delete_ne by done.
  rewrite !writeAll_lookup_key by (apply elem_of_allKeys; tauto).
  rewrite lookup_insert_eq. cbn [readSlot].
  by rewrite (right_id_L ∅ (∪)), !(idemp_L (∪)).
Qed.

(** X13: [clearAllOrders] after a save clears nothing that is read.
    It removes the key [kgbites_orders], but [getAllOrders] returns the
    same orders as before from the other mirrors, and, called before the
    saved order expires, writes the key back. *)
Theorem clearAllOrders_after_save now origin orderData st :
  let st' := (saveOrder now origin orderData st).2 in
  localStorage (clearAllOrders st') !! storageKey = None ∧
  (∀ t, (getAllOrders t (clearAllOrders st')).1 = (getAllOrders t st').1) ∧
  (∀ t, t ≤ now + DAY_MS →
     localStorage (getAllOrders t (clearAllOrders st')).2 !! storageKey
     = Some (Parsed (getAllOrders t st').1)).
Proof.
  cbv zeta. rewrite saveOrder_snd.
  set (orders := <[propertyKey (order_code orderData)
                   := orderWithOTP now origin orderData]> (view now st)).
  set (st1 := (getAllOrders now st).2).
  assert (Hv : ∀ t, view t (clearAllOrders (writeEverywhere orders st1))
                    = view t (writeEverywhere orders st1)).
  { intros t. unfold view.
    by rewrite mergeAll_clear_after_write, mergeAll_writeEverywhere. }
  split_and!.
  - unfold clearAllOrders. cbn [localStorage]. apply lookup_delete_eq.
  - intros t. by rewrite !getAllOrders_fst.
  - intros t Ht. rewrite getAllOrders_fst.
    rewrite getAllOrders_snd_nonempty.
    + cbn [localStorage]. rewrite Hv. apply writeAll_lookup_key.
      apply elem_of_allKeys. unfold storageKey. tauto.
    + rewrite Hv, view_writeEverywhere. intros He.
      apply (f_equal (λ m : gmap string Order,
                        m !! propertyKey (order_code orderData))) in He.
      rewrite lookup_purge, lookup_empty in He. unfold orders in He.
      rewrite lookup_insert_eq in He. unfold purge1 in He.
      rewrite isExpired_orderWithOTP in He.
      by rewrite bool_decide_eq_false_2 in He by lia.
Qed.

(** ** What the operations keep of a saved order *)

Lemma itemKept_refl item : itemKept item item.
Proof. by split_and!. Qed.

Lemma itemsKept_refl groups : itemsKept groups groups.
Proof.
  intros c. destruct (groups !! c) as [l|]; [|done].
  induction l; constructor; [apply itemKept_refl|done].
Qed.

Lemma itemsKept_deliverGroups c ids groups0 groups :
  itemsKept groups0 groups →
  itemsKept groups0 (default ∅ (deliverGroups c ids (Some groups))).
Proof.
  intros H counter. specialize (H counter). rewrite deliverGroups_lookup.
  destruct (groups0 !! counter) as [l0|], (groups !! counter) as [l|];
    cbn; try done.
  rewrite Forall2_fmap_r. eapply Forall2_impl; [exact H|].
  intros i0 i (H1 & H2 & H3 & H4). split_and!; try done.
  intros Hd. cbn. by rewrite (H4 Hd).
Qed.

Lemma deliverGroups_Some c ids g :
  deliverGroups c ids (Some g) = Some (default ∅ (deliverGroups c ids (Some g))).
Proof. unfold deliverGroups. by destruct (g !! c). Qed.

Lemma payloadKept_orderWithOTP now origin orderData :
  payloadKept origin orderData (orderWithOTP now origin orderData).
Proof.
  unfold payloadKept. cbn. split_and!; try done.
  destruct (items_by_counter orderData); [apply itemsKept_refl|done].
Qed.

Lemma payloadKept_delivered origin orderData now c ids o :
  payloadKept origin orderData o →
  payloadKept origin orderData
    (set_updated_at now (markCounterDelivered_record c ids (normalise now o))).
Proof.
  intros (H1 & H2 & H3 & H4 & H5 & H6). rewrite normalise_idemp by done.
  rewrite markCounterDelivered_record_eq. cbv zeta.
  unfold payloadKept. cbn. split_and!; try done.
  destruct (items_by_counter orderData) as [g0|],
    (items_by_counter o) as [g|]; try done.
  rewrite deliverGroups_Some. by apply itemsKept_deliverGroups.
Qed.

Lemma payloadKept_synced origin orderData now res o u :
  payloadKept origin orderData o → syncUpdates now res o = Some u →
  payloadKept origin orderData (set_updated_at now (spread o u)).
Proof.
  intros (H1 & H2 & H3 & H4 & H5 & H6). unfold syncUpdates, payloadKept.
  repeat (destruct (str_is _ _);
          [intros [= <-]; cbn;
           rewrite !union_None_l, ?union_Some_l, (left_id_L ∅ (∪));
           by split_and!|]).
  done.
Qed.

Lemma payloadKept_used origin orderData now o :
  payloadKept origin orderData o →
  payloadKept origin orderData (set_used_at now (set_otp_status "used" o)).
Proof. by intros (H1 & H2 & H3 & H4 & H5 & H6). Qed.

Lemma payloadKept_runOp origin orderData code now op st :
  everyCopy (payloadKept origin orderData) code st →
  everyCopy (payloadKept origin orderData) code (runOp now op st).
Proof.
  intros Hall.
  assert (Hup : ∀ o, payloadKept origin orderData o →
                     truthy (otp_status o) = false →
                     payloadKept origin orderData
                       (set_updated_at now (upgradeLegacy now o))).
  { intros o (_ & _ & _ & _ & Ht & _) Hf. congruence. }
  destruct op as [|c|c counter ids|res c|c]; cbn [runOp].
  - by apply everyCopy_getAllOrders.
  - by apply everyCopy_getOrderByCode.
  - apply everyCopy_markCounterDelivered; [done..|].
    intros o. apply payloadKept_delivered.
  - apply everyCopy_syncOrderStatusFromServer; [done|].
    intros o u. apply payloadKept_synced.
  - apply everyCopy_markOrderAsUsed; [done|].
    intros o Ho _. by apply payloadKept_used.
Qed.

Lemma payloadKept_runOps origin orderData code ops st :
  everyCopy (payloadKept origin orderData) code st →
  everyCopy (payloadKept origin orderData) code (runOps ops st).
Proof.
  revert st. induction ops as [|[now op] ops IH]; intros st Hall; [done|].
  apply IH. by apply payloadKept_runOp.
Qed.

(** X14: what the operations never change in a saved order.  After
    [saveOrder] and any sequence of reads, lookups, deliveries, status
    syncs and consumptions, a read that shows the order shows the
    [order_code], [counters_involved], origin and remaining payload of
    the save, a truthy [otp_status], and the counter groups of the save
    with the same items (id, name, quantity, in order), of which none was
    turned from delivered to undelivered. *)
Theorem saved_order_payload_kept now origin orderData st ops t o :
  view t (runOps ops (saveOrder now origin orderData st).2)
    !! propertyKey (order_code orderData) = Some o →
  payloadKept origin orderData o.
Proof.
  intros Hv.
  eapply (everyCopy_view (payloadKept origin orderData)); [|exact Hv].
  apply payloadKept_runOps, everyCopy_saveOrder, payloadKept_orderWithOTP.
Qed.

Lemma saved_order_payload_kept_witness :
  ∃ o,
    view 4000
      (runOps [(2000, OpDeliver "TS1234" "Snacks" [2]);
               (3000, OpSync (mkStatusRes (Some "used") None) "TS1234")]
         savedStorage) !! "TS1234" = Some o ∧
    payloadKept sampleOrigin sampleOrder o.
Proof.
  eexists. split; [vm_compute; reflexivity|].
  apply (saved_order_payload_kept 1000 sampleOrigin sampleOrder emptyStorage
           [(2000, OpDeliver "TS1234" "Snacks" [2]);
            (3000, OpSync (mkStatusRes (Some "used") None) "TS1234")] 4000).
  vm_compute. reflexivity.
Defined.

(** ** [counters_completed] lists no counter twice *)

Lemma NoDup_addCompleted c l : NoDup l → NoDup (addCompleted c l).
Proof.
  intros H. unfold addCompleted. case_bool_decide as Hc; [done|].
  apply NoDup_app. split_and!; [done| |apply NoDup_singleton].
  intros x Hx ->%list_elem_of_singleton. done.
Qed.

Lemma NoDup_Object_keys {A} (m : gmap string A) : NoDup (Object_keys m).
Proof. apply NoDup_fst_map_to_list. Qed.

Lemma NoDup_countersOf o :
  NoDup (default [] (counters_involved o)) → NoDup (countersOf o).
Proof.
  unfold countersOf. destruct (counters_involved o); [done|].
  intros _. apply NoDup_Object_keys.
Qed.

Lemma countersOnce_delivered now c ids o :
  countersOnce o →
  countersOnce
    (set_updated_at now (markCounterDelivered_record c ids (normalise now o))).
Proof.
  intros [H1 H2]. rewrite markCounterDelivered_record_eq. cbv zeta.
  assert (Hn : counters_completed (normalise now o) = counters_completed o ∧
               counters_involved (normalise now o) = counters_involved o).
  { unfold normalise. by destruct (truthy (otp_status o)). }
  destruct Hn as [Hn1 Hn2]. split; cbn; rewrite ?Hn1, ?Hn2; [|done].
  by apply NoDup_addCompleted.
Qed.

Lemma countersOnce_synced now res o u :
  countersOnce o → syncUpdates now res o = Some u →
  countersOnce (set_updated_at now (spread o u)).
Proof.
  intros [H1 H2]. unfold syncUpdates, countersOnce.
  destruct (str_is _ _).
  { intros [= <-]. cbn. rewrite union_Some_l, union_None_l. split; [|done].
    by apply NoDup_countersOf. }
  repeat (destruct (str_is _ _);
          [intros [= <-]; cbn; by rewrite !union_None_l|]).
  done.
Qed.

Lemma countersOnce_runOp code now op st :
  everyCopy countersOnce code st →
  everyCopy countersOnce code (runOp now op st).
Proof.
  intros Hall.
  assert (Hup : ∀ o, countersOnce o → truthy (otp_status o) = false →
                     countersOnce (set_updated_at now (upgradeLegacy now o))).
  { by intros o [H1 H2] _. }
  destruct op as [|c|c counter ids|res c|c]; cbn [runOp].
  - by apply everyCopy_getAllOrders.
  - by apply everyCopy_getOrderByCode.
  - apply everyCopy_markCounterDelivered; [done..|].
    intros o. apply countersOnce_delivered.
  - apply everyCopy_syncOrderStatusFromServer; [done|].
    intros o u. apply countersOnce_synced.
  - apply everyCopy_markOrderAsUsed; [done|].
    by intros o [H1 H2] _.
Qed.

Lemma countersOnce_runOps code ops st :
  everyCopy countersOnce code st → everyCopy countersOnce code (runOps ops st).
Proof.
  revert st. induction ops as [|[now op] ops IH]; intros st Hall; [done|].
  apply IH. by apply countersOnce_runOp.
Qed.

(** X15: [counters_completed] lists no counter twice.  For an order
    saved with no duplicate in [counters_completed] and in
    [counters_involved], this holds in every read after any sequence of
    reads, lookups, deliveries, status syncs and consumptions. *)
Theorem counters_completed_no_duplicates now origin orderData st ops t o :
  NoDup (default [] (counters_completed orderData)) →
  NoDup (default [] (counters_involved orderData)) →
  view t (runOps ops (saveOrder now origin orderData st).2)
    !! propertyKey (order_code orderData) = Some o →
  NoDup (default [] (counters_completed o)).
Proof.
  intros H1 H2 Hv.
  apply (everyCopy_view countersOnce _ _ _ _
           (countersOnce_runOps _ ops _
              (everyCopy_saveOrder countersOnce now origin orderData st
                 (conj H1 H2))) Hv).
Qed.

Lemma counters_completed_no_duplicates_witness :
  ∃ o,
    view 4000
      (runOps [(2000, OpDeliver "TS1234" "Snacks" [2]);
               (3000, OpDeliver "TS1234" "Snacks" [3])]
         savedStorage) !! "TS1234" = Some o ∧
    NoDup (default [] (counters_completed o)).
Proof.
  eexists. split; [vm_compute; reflexivity|].
  apply (counters_completed_no_duplicates 1000 sampleOrigin sampleOrder
           emptyStorage
           [(2000, OpDeliver "TS1234" "Snacks" [2]);
            (3000, OpDeliver "TS1234" "Snacks" [3])] 4000).
  - apply NoDup_nil_2.
  - cbn. apply NoDup_cons. split; [|apply NoDup_singleton].
    intros H%list_elem_of_singleton. discriminate H.
  - vm_compute. reflexivity.
Defined.

(** ** Creating an order from the cart *)

Lemma groupItem_lookup g item c :
  groupItem g item !! c =
    if decide (counterOf item = c)
    then Some (default [] (g !! c) ++ [orderItem item])%list
    else g !! c.
Proof.
  unfold groupItem. case_decide as Hc.
  - subst c. rewrite lookup_insert_eq. f_equal. f_equal.
    destruct (g !! counterOf item) as [l|] eqn:E; [by rewrite E|].
    by rewrite lookup_insert_eq.
  - rewrite lookup_insert_ne by done.
    destruct (g !! counterOf item); [done|]. by rewrite lookup_insert_ne.
Qed.

Lemma foldl_groupItem_lookup cartItems g c :
  foldl groupItem g cartItems !! c =
    let l := filter (λ item, counterOf item = c) cartItems in
    match g !! c with
    | Some l0 => Some (l0 ++ (orderItem <$> l))%list
    | None => if decide (l = []) then None else Some (orderItem <$> l)
    end.
Proof.
  revert g. induction cartItems as [|item items IH]; intros g; cbv zeta.
  - cbn. destruct (g !! c); [by rewrite app_nil_r|done].
  - cbn [foldl]. rewrite IH. cbv zeta. rewrite groupItem_lookup.
    rewrite filter_cons. case_decide as Hc.
    + rewrite fmap_cons. destruct (g !! c) as [l0|]; cbn.
      * by rewrite <- app_assoc.
      * by rewrite decide_False.
    + done.
Qed.

(** X16: how [createOrderFromCart] groups the cart.  The group of a
    counter holds one undelivered item for each cart item of that counter
    (the first truthy one of [counter_name], [counter], [counter_id], else
    ['General']), in cart order, with the id, name and quantity of the
    cart item; a counter without cart item has no group; and
    [counters_involved] is the list of the keys of the groups. *)
Theorem createOrderFromCart_groups now orderCode cartItems userInfo :
  ∃ groups,
    items_by_counter (cartOrderData now orderCode cartItems userInfo)
      = Some groups ∧
    counters_involved (cartOrderData now orderCode cartItems userInfo)
      = Some (Object_keys groups) ∧
    ∀ counter,
      groups !! counter =
        let l := filter (λ item, counterOf item = counter) cartItems in
        if decide (l = []) then None else Some (orderItem <$> l).
Proof.
  eexists. split_and!; [reflexivity..|].
  intros counter. rewrite foldl_groupItem_lookup. by rewrite lookup_empty.
Qed.

(** X17: [createOrderFromCart] always succeeds, and the order it
    returns can be looked up: at every instant up to [now + 24h],
    [getOrderByCode] of the returned code returns the returned order data
    as [saveOrder] stamped them. *)
Theorem createOrderFromCart_then_lookup now origin random cartItems userInfo
    st :
  ∃ code st',
    createOrderFromCart now origin random cartItems userInfo st
    = (Some (code, cartOrderData now code cartItems userInfo), st') ∧
    ∀ t, t ≤ now + DAY_MS →
      (getOrderByCode t code st').1
      = Some (orderWithOTP now origin
                (cartOrderData now code cartItems userInfo)).
Proof.
  unfold createOrderFromCart, generateOrderCode.
  destruct (generateLoop_returns maxAttempts now random 0 st)
    as (code & n & st1 & -> & _); [lia|unfold maxAttempts; lia|].
  pose proof (saveOrder_fst now origin
                (cartOrderData now code cartItems userInfo) st1) as Hs.
  pose proof (lookup_after_save now) as Hl.
  specialize (Hl) with (origin := origin)
    (orderData := cartOrderData now code cartItems userInfo) (st := st1).
  destruct (saveOrder now origin (cartOrderData now code cartItems userInfo)
              st1) as [saved st2] eqn:E.
  cbn [fst snd] in *. subst saved. exists code, st2. split; [done|].
  intros t Ht. specialize (Hl t). cbn [propertyKey order_code cartOrderData
    from_option id] in Hl.
  rewrite Hl. by rewrite bool_decide_eq_false_2 by lia.
Qed.

(** ** The counter screen *)

Lemma filter_length_0 {A} (P : A → Prop) `{∀ x, Decision (P x)} (l : list A) :
  length (filter P l) = 0%nat → Forall (λ x, ¬ P x) l.
Proof.
  intros Hl. apply length_zero_iff_nil in Hl.
  apply Forall_forall. intros x Hx HP.
  assert (x ∈ filter P l) as Hin by (by apply list_elem_of_filter).
  rewrite Hl in Hin. by apply elem_of_nil in Hin.
Qed.

Lemma markAsDelivered_record order groups selectedCounter checkedItems items :
  items_by_counter order = Some groups →
  groups !! selectedCounter = Some items →
  ∀ consumed updated failed,
    markAsDelivered (Some order) selectedCounter checkedItems consumed
    = Updated updated failed →
    let r := markCounterDelivered_record selectedCounter checkedItems order in
    items_by_counter updated = items_by_counter r ∧
    counters_completed updated = counters_completed r ∧
    is_complete updated = is_complete r ∧
    Forall (λ item, delivered item = false → item_id item ∈ checkedItems) items ∧
    Exists (λ item, delivered item = false) items.
Proof.
  intros Hg Hi consumed updated failed.
  destruct order as [oc g ci cc ic os gb ca ua ea usa ot].
  cbn in Hg. subst g.
  unfold markAsDelivered, markCounterDelivered_record.
  cbn [items_by_counter]. rewrite Hi. cbn [from_option id]. cbv zeta.
  case_bool_decide as Hu; [done|].
  case_bool_decide as Hc; [done|].
  assert (Hall : Forall (λ item, delivered item = false →
                                 item_id item ∈ checkedItems) items).
  { assert (Hz : length (filter (λ item, item_id item ∉ checkedItems)
                           (filter (λ item, delivered item = false) items))
                 = 0%nat) by lia.
    apply filter_length_0 in Hz. rewrite Forall_forall in Hz.
    apply Forall_forall. intros item Hin Hd.
    destruct (decide (item_id item ∈ checkedItems)) as [|Hn]; [done|].
    exfalso. apply (Hz item); [|done]. by apply list_elem_of_filter. }
  assert (Hex : Exists (λ item, delivered item = false) items).
  { destruct (filter (λ item, delivered item = false) items) as [|x l] eqn:E;
      [done|].
    assert (Hx : x ∈ filter (λ item, delivered item = false) items)
      by (rewrite E; apply elem_of_cons; by left).
    apply list_elem_of_filter in Hx as [Hd Hin].
    apply Exists_exists. by exists x. }
  clear Hu Hc.
  destruct cc as [cc|];
    cbn [set_items_by_counter set_counters_completed set_is_complete
         counters_completed items_by_counter is_complete from_option id];
    (case_bool_decide as Hin;
     cbn [set_items_by_counter set_counters_completed set_is_complete
          counters_completed items_by_counter is_complete from_option id];
     (match goal with
      | |- (if ?b then _ else _) = _ → _ => destruct b eqn:Hb
      end;
      [destruct consumed as [res|];
       [destruct (consumed_used_at res)|]|];
      intros [= <- <-]; by split_and!)).
Qed.

(** X18: when the counter screen accepts a delivery, it makes to its copy
    of the order the change that [markCounterDelivered] of the service
    makes: the same items, the same [counters_completed] and the same
    [is_complete]. *)
Theorem markAsDelivered_agrees_with_service order groups selectedCounter
    checkedItems consumed updated failed :
  items_by_counter order = Some groups →
  markAsDelivered (Some order) selectedCounter checkedItems consumed
  = Updated updated failed →
  let r := markCounterDelivered_record selectedCounter checkedItems order in
  items_by_counter updated = items_by_counter r ∧
  counters_completed updated = counters_completed r ∧
  is_complete updated = is_complete r.
Proof.
  intros Hg Hres. destruct (groups !! selectedCounter) as [items|] eqn:Hi.
  - destruct (markAsDelivered_record order groups selectedCounter checkedItems
                items Hg Hi consumed updated failed Hres) as (H1 & H2 & H3 & _).
    by split_and!.
  - unfold markAsDelivered in Hres. rewrite Hg, Hi in Hres. done.
Qed.

(** X19: the counter screen records a counter as completed only with
    all of its items delivered.  When [markAsDelivered] updates the
    order, the group of the selected counter is not empty, every item of
    it is delivered in the updated order, and the counter is in
    [counters_completed]. *)
Theorem markAsDelivered_delivers_whole_group order groups selectedCounter
    checkedItems consumed updated failed :
  items_by_counter order = Some groups →
  markAsDelivered (Some order) selectedCounter checkedItems consumed
  = Updated updated failed →
  ∃ groups' items',
    items_by_counter updated = Some groups' ∧
    groups' !! selectedCounter = Some items' ∧
    items' ≠ [] ∧
    Forall (λ item, delivered item = true) items' ∧
    selectedCounter ∈ default [] (counters_completed updated).
Proof.
  intros Hg Hres. destruct (groups !! selectedCounter) as [items|] eqn:Hi.
  - destruct (markAsDelivered_record order groups selectedCounter checkedItems
                items Hg Hi consumed updated failed Hres)
      as (H1 & H2 & _ & Hall & Hex).
    rewrite markCounterDelivered_record_eq in H1, H2. cbv zeta in H1, H2.
    cbn [items_by_counter counters_completed] in H1, H2.
    rewrite Hg in H1. unfold deliverGroups in H1. rewrite Hi in H1.
    exists (<[selectedCounter := markItems checkedItems items]> groups),
           (markItems checkedItems items).
    split_and!; [done|by rewrite lookup_insert_eq|..].
    + apply Exists_exists in Hex as (x & Hx & _).
      intros He. apply (f_equal length) in He.
      unfold markItems in He. rewrite length_map in He.
      apply list_elem_of_In in Hx. destruct items; [done|]. discriminate He.
    + unfold markItems. change (map ?f ?l) with (f <$> l).
      apply Forall_fmap. eapply Forall_impl; [exact Hall|].
      intros item Hd. cbn. case_bool_decide as Hin; [done|].
      destruct (delivered item) eqn:Hdel; [done|].
      exfalso. by apply Hin, Hd.
    + rewrite H2. cbn. apply elem_of_addCompleted.
  - unfold markAsDelivered in Hres. rewrite Hg, Hi in Hres. done.
Qed.

Lemma markAsDelivered_delivers_whole_group_witness :
  ∃ updated,
    markAsDelivered (Some sampleOrder) "Snacks" [2; 3] None
    = Updated updated false ∧
    "Snacks" ∈ default [] (counters_completed updated).
Proof.
  destruct (markAsDelivered (Some sampleOrder) "Snacks" [2; 3] None)
    as [| | | |updated failed] eqn:E; try (vm_compute in E; discriminate E).
  destruct (markAsDelivered_delivers_whole_group sampleOrder sampleGroups
              "Snacks" [2; 3] None updated failed eq_refl E)
    as (g & items & _ & _ & _ & _ & Hc).
  assert (Hf : failed = false).
  { assert (H : match markAsDelivered (Some sampleOrder) "Snacks" [2; 3] None
                with Updated _ f => f | _ => true end = false)
      by (vm_compute; reflexivity).
    by rewrite E in H. }
  subst failed. exists updated. split; [reflexivity | exact Hc].
Defined.

Lemma markAsDelivered_agrees_with_service_witness :
  ∃ updated,
    markAsDelivered (Some sampleOrder) "Snacks" [2; 3] None
    = Updated updated false ∧
    is_complete updated
    = is_complete (markCounterDelivered_record "Snacks" [2; 3] sampleOrder).
Proof.
  destruct (markAsDelivered (Some sampleOrder) "Snacks" [2; 3] None)
    as [| | | |updated failed] eqn:E; try (vm_compute in E; discriminate E).
  destruct (markAsDelivered_agrees_with_service sampleOrder sampleGroups
              "Snacks" [2; 3] None updated failed eq_refl E)
    as (_ & _ & Hc).
  assert (Hf : failed = false).
  { assert (H : match markAsDelivered (Some sampleOrder) "Snacks" [2; 3] None
                with Updated _ f => f | _ => true end = false)
      by (vm_compute; reflexivity).
    by rewrite E in H. }
  subst failed. exists updated. split; [reflexivity | exact Hc].
Defined.

(** ** Polling *)

(** X20: which answer takes an order out of the polling of the orders
    page.  The page polls the orders with a falsy [is_complete] and an
    [otp_status] other than ['used'].  For an order whose stored copy is
    of that kind, the order that the page shows after the sync is of that
    kind again unless the answer is ['used']: after ['expired'],
    ['active'], ['not_found'], ['error'] or anything else the page asks
    again. *)
Theorem polling_ends_with_used_answer now res o st cur :
  view now st !! propertyKey (order_code o) = Some cur →
  needsSync cur = true →
  needsSync (syncedOrder now res o st)
  = negb (str_is (status res) "used").
Proof.
  intros Hv Hn. unfold syncedOrder.
  rewrite syncOrderStatusFromServer_fst, Hv.
  apply andb_true_iff in Hn as [Hc Hu].
  destruct (syncUpdates now res cur) as [u|] eqn:Hup.
  - rewrite (syncEntry_survives _ _ _ _ _ _ Hv Hup). cbn [from_option id].
    revert Hup. unfold syncUpdates.
    destruct (str_is (status res) "used") eqn:H1.
    { intros [= <-]. unfold needsSync. cbn. by rewrite !union_Some_l. }
    destruct (str_is (status res) "expired") eqn:H2.
    { intros [= <-]. unfold needsSync. cbn.
      rewrite union_None_l, union_Some_l, Hc. done. }
    destruct (str_is (status res) "active") eqn:H3; [|done].
    intros [= <-]. unfold needsSync. cbn.
    rewrite union_None_l, union_Some_l, Hc. done.
  - cbn [syncEntry]. rewrite Hup.
    rewrite <- Hv, purge1_view, Hv. cbn [from_option id].
    unfold needsSync. rewrite Hc, Hu. cbn.
    unfold syncUpdates in Hup.
    destruct (str_is (status res) "used"); [done|]. done.
Qed.

Lemma polling_ends_with_used_answer_witness :
  needsSync (syncedOrder 1500 (mkStatusRes (Some "expired") None)
               sampleOrder savedStorage) = true.
Proof.
  rewrite (polling_ends_with_used_answer 1500
             (mkStatusRes (Some "expired") None) sampleOrder savedStorage
             (orderWithOTP 1000 sampleOrigin sampleOrder)).
  - reflexivity.
  - vm_compute. reflexivity.
  - reflexivity.
Defined.

(** ** The cart *)

Lemma ids_map_quantity (f : CartLine → CartLine) cart :
  (∀ line, line_id (f line) = line_id line) →
  line_id <$> map f cart = line_id <$> cart.
Proof.
  intros Hf. change (map f cart) with (f <$> cart).
  rewrite <- list_fmap_compose. apply list_fmap_ext. intros i x _. apply Hf.
Qed.

Lemma NoDup_fmap_filter {A B} (f : A → B) (P : A → Prop)
    `{∀ x, Decision (P x)} (l : list A) :
  NoDup (f <$> l) → NoDup (f <$> filter P l).
Proof.
  induction l as [|x l IH]; [done|].
  rewrite fmap_cons, NoDup_cons. intros [Hx Hl].
  rewrite filter_cons. case_decide; [|by apply IH].
  rewrite fmap_cons. apply NoDup_cons. split; [|by apply IH].
  intros Hin. apply Hx. apply list_elem_of_fmap in Hin as (y & -> & Hy).
  apply list_elem_of_filter in Hy as [_ Hy]. apply list_elem_of_fmap.
  by exists y.
Qed.

(** X21: the cart of the dashboard keeps one line per item and no line
    without a quantity: if the ids of the lines are distinct and every
    quantity is at least 1, the same holds after [addToCart] and after
    [updateQuantity]. *)
Theorem cart_stays_well_formed item id change cartItems :
  cartOk cartItems →
  cartOk (addToCart item cartItems) ∧
  cartOk (updateQuantity id change cartItems).
Proof.
  intros [Hnd Hq]. split.
  - unfold addToCart. destruct (menu_stock item) as [stock|]; [|done].
    case_bool_decide as Hs; [done|].
    destruct (list_find _ cartItems) as [[i existing]|] eqn:Hf.
    + case_bool_decide as He; [done|]. split.
      * rewrite ids_map_quantity; [done|]. intros line.
        by case_bool_decide.
      * apply Forall_forall. intros line Hin.
        apply list_elem_of_In, in_map_iff in Hin as (l0 & <- & Hl0).
        apply list_elem_of_In in Hl0.
        rewrite Forall_forall in Hq. specialize (Hq l0 Hl0).
        case_bool_decide; cbn; lia.
    + apply list_find_None in Hf. split.
      * rewrite fmap_app. cbn. apply NoDup_app. split_and!; [done| |].
        -- intros x Hx ->%list_elem_of_singleton.
           apply list_elem_of_fmap in Hx as (l0 & Hid & Hl0).
           rewrite Forall_forall in Hf. by apply (Hf l0 Hl0).
        -- apply NoDup_singleton.
      * apply Forall_app. split; [done|]. apply Forall_singleton. cbn. lia.
  - unfold updateQuantity. split.
    + apply NoDup_fmap_filter. rewrite ids_map_quantity; [done|].
      intros line. by repeat case_bool_decide; try destruct (_ && _).
    + apply Forall_forall. intros line Hin.
      apply list_elem_of_filter in Hin as [Hpos _]. lia.
Qed.

Lemma cart_stays_well_formed_witness :
  cartOk (addToCart (mkMenuItem 7 "Vada" (Some 2))
            [mkCartLine 7 "Vada" 2 1; mkCartLine 8 "Tea" 5 3]).
Proof.
  refine (proj1 (cart_stays_well_formed (mkMenuItem 7 "Vada" (Some 2)) 7 1
                   [mkCartLine 7 "Vada" 2 1; mkCartLine 8 "Tea" 5 3] _)).
  split.
  - cbn. apply NoDup_cons. split; [|apply NoDup_singleton].
    intros H%list_elem_of_singleton. discriminate H.
  - repeat constructor; cbn; lia.
Defined.

Lemma same_id_same_line cart (x y : CartLine) :
  NoDup (line_id <$> cart) → x ∈ cart → y ∈ cart →
  line_id x = line_id y → x = y.
Proof.
  intros Hnd [i Hi]%list_elem_of_lookup [j Hj]%list_elem_of_lookup Hid.
  assert (i = j) as ->.
  { apply (NoDup_lookup (line_id <$> cart) i j (line_id x)); [done|..].
    - by rewrite list_lookup_fmap, Hi.
    - by rewrite list_lookup_fmap, Hj, Hid. }
  congruence.
Qed.

Lemma filter_other_map (f : CartLine → CartLine) (k : Z)
    (cart : list CartLine) :
  (∀ x, line_id (f x) = line_id x) →
  (∀ x, line_id x ≠ k → f x = x) →
  filter (λ l, line_id l ≠ k) (map f cart)
  = filter (λ l, line_id l ≠ k) cart.
Proof.
  intros Hid Hf. induction cart as [|x l IH]; [done|].
  cbn [map]. rewrite !filter_cons, IH, Hid.
  case_decide as Hx; [|done]. by rewrite (Hf x Hx).
Qed.

Lemma filter_other_positive (k : Z) (cart : list CartLine) :
  (∀ x, x ∈ cart → line_id x ≠ k → 0 < line_quantity x) →
  filter (λ l, line_id l ≠ k) (filter (λ l, 0 < line_quantity l) cart)
  = filter (λ l, line_id l ≠ k) cart.
Proof.
  induction cart as [|x l IH]; intros Hpos; [done|].
  assert (Hl : ∀ y, y ∈ l → line_id y ≠ k → 0 < line_quantity y).
  { intros y Hy. apply Hpos. apply elem_of_cons. by right. }
  rewrite (filter_cons (λ l, 0 < line_quantity l)).
  rewrite (filter_cons (λ l, line_id l ≠ k) x l).
  case_decide as Hq.
  - rewrite filter_cons, IH by done. done.
  - rewrite IH by done. case_decide as Hx; [|done].
    exfalso. apply Hq, Hpos; [|done]. apply elem_of_cons. by left.
Qed.

(** X22: raising a quantity stops at the stock, and the other lines
    stay.  A line that [addToCart(item)] adds or changes has a quantity
    of at most [item.stock]; a line that [updateQuantity] changes by a
    positive amount has a quantity of at most the stock of the line; and
    after either call the lines of the other items are the lines of the
    cart before the call, in the same order. *)
Theorem cart_quantity_within_stock item id change cartItems line :
  cartOk cartItems →
  (line ∈ addToCart item cartItems →
     line ∈ cartItems ∨
     line_id line = menu_id item ∧
     ∃ stock, menu_stock item = Some stock ∧ line_quantity line ≤ stock) ∧
  (line ∈ updateQuantity id change cartItems →
     line ∈ cartItems ∨
     line_id line = id ∧ (0 < change → line_quantity line ≤ line_stock line)) ∧
  filter (λ other, line_id other ≠ menu_id item) (addToCart item cartItems)
  = filter (λ other, line_id other ≠ menu_id item) cartItems ∧
  filter (λ other, line_id other ≠ id) (updateQuantity id change cartItems)
  = filter (λ other, line_id other ≠ id) cartItems.
Proof.
  intros [Hnd Hq]. split_and!.
  - unfold addToCart. destruct (menu_stock item) as [stock|]; [|by left].
    case_bool_decide as Hs; [by left|].
    destruct (list_find _ cartItems) as [[i existing]|] eqn:Hf.
    + case_bool_decide as He; [by left|]. intros Hin.
      apply list_elem_of_In, in_map_iff in Hin as (l0 & <- & Hl0).
      apply list_elem_of_In in Hl0.
      case_bool_decide as Hid; [|by left]. right. split; [done|].
      exists stock. split; [done|]. cbn.
      apply list_find_Some in Hf as (Hi & Hei & _).
      assert (l0 = existing) as ->.
      { apply (same_id_same_line cartItems); [done|done| |congruence].
        by apply list_elem_of_lookup_2 in Hi. }
      lia.
    + rewrite elem_of_app, list_elem_of_singleton. intros [Hin| ->];
        [by left|]. right. split; [done|]. exists stock. split; [done|].
      cbn. lia.
  - unfold updateQuantity. intros [_ Hin]%list_elem_of_filter.
    apply list_elem_of_In, in_map_iff in Hin as (l0 & <- & Hl0).
    apply list_elem_of_In in Hl0.
    case_bool_decide as Hid; [|by left]. cbv zeta.
    case_bool_decide as Hneg; [by left|].
    destruct (bool_decide (0 < change) && _) eqn:Hb; [by left|].
    right. split; [done|]. intros Hc. cbn.
    apply andb_false_iff in Hb as [Hb|Hb];
      apply bool_decide_eq_false in Hb; lia.
  - unfold addToCart. destruct (menu_stock item) as [stock|]; [|done].
    case_bool_decide as Hs; [done|].
    destruct (list_find _ cartItems) as [[i existing]|] eqn:Hf.
    + case_bool_decide as He; [done|]. apply filter_other_map.
      * intros x. by case_bool_decide.
      * intros x Hx. by rewrite bool_decide_eq_false_2.
    + rewrite filter_app, filter_cons, decide_False by (cbn; tauto).
      by rewrite filter_nil, app_nil_r.
  - unfold updateQuantity. rewrite filter_other_positive.
    + apply filter_other_map.
      * intros x. by repeat case_bool_decide; try destruct (_ && _).
      * intros x Hx. by rewrite bool_decide_eq_false_2.
    + intros x Hin Hx.
      apply list_elem_of_In, in_map_iff in Hin as (l0 & <- & Hl0).
      apply list_elem_of_In in Hl0.
      rewrite Forall_forall in Hq. specialize (Hq l0 Hl0).
      case_bool_decide as Hid; [|lia]. exfalso. apply Hx.
      by repeat case_bool_decide; try destruct (_ && _).
Qed.

Lemma cart_quantity_within_stock_witness :
  ∃ stock,
    menu_stock (mkMenuItem 7 "Vada" (Some 2)) = Some stock ∧
    line_quantity (mkCartLine 7 "Vada" 2 2) ≤ stock.
Proof.
  assert (Hok : cartOk [mkCartLine 7 "Vada" 2 1; mkCartLine 8 "Tea" 5 3]).
  { split.
    - cbn. apply NoDup_cons. split; [|apply NoDup_singleton].
      intros H%list_elem_of_singleton. discriminate H.
    - repeat constructor; cbn; lia. }
  destruct (proj1 (cart_quantity_within_stock (mkMenuItem 7 "Vada" (Some 2))
                     7 1 _ (mkCartLine 7 "Vada" 2 2) Hok)) as [Hold|[_ H]].
  - apply elem_of_cons. by left.
  - apply elem_of_cons in Hold as [Heq|Hold]; [discriminate Heq|].
    apply list_elem_of_singleton in Hold. discriminate Hold.
  - exact H.
Defined.

Lemma getTotalItems_acc (a : Z) cart :
  foldl (λ sum item, sum + line_quantity item) a cart = a + getTotalItems cart.
Proof.
  unfold getTotalItems. revert a. induction cart as [|x l IH]; intros a.
  - cbn. lia.
  - cbn [foldl]. rewrite IH, (IH (0 + line_quantity x)). lia.
Qed.

Lemma getTotalItems_cons x cart :
  getTotalItems (x :: cart) = line_quantity x + getTotalItems cart.
Proof. unfold getTotalItems at 1. cbn [foldl]. by rewrite getTotalItems_acc. Qed.

Lemma getTotalItems_bump k cart :
  NoDup (line_id <$> cart) →
  getTotalItems
    (map (λ cartItem,
            if bool_decide (line_id cartItem = k)
            then set_line_quantity (line_quantity cartItem + 1) cartItem
            else cartItem) cart)
  = getTotalItems cart + (if bool_decide (k ∈ line_id <$> cart) then 1 else 0).
Proof.
  induction cart as [|x l IH]; [done|].
  rewrite fmap_cons, NoDup_cons. intros [Hx Hl].
  cbn [map]. rewrite !getTotalItems_cons, IH by done.
  destruct (decide (line_id x = k)) as [Hk|Hk].
  - rewrite (bool_decide_eq_true_2 _ Hk). subst k.
    rewrite (bool_decide_eq_false_2 _ Hx).
    rewrite bool_decide_eq_true_2 by (apply elem_of_cons; by left).
    cbn. lia.
  - rewrite (bool_decide_eq_false_2 _ Hk).
    destruct (decide (k ∈ line_id <$> l)) as [Hin|Hin].
    + rewrite (bool_decide_eq_true_2 _ Hin).
      rewrite bool_decide_eq_true_2 by (apply elem_of_cons; by right). lia.
    + rewrite (bool_decide_eq_false_2 _ Hin).
      rewrite bool_decide_eq_false_2; [lia|].
      rewrite elem_of_cons. intros [->|?]; done.
Qed.

(** X23: [addToCart] leaves the cart as it is or raises
    [getTotalItems()] by exactly one. *)
Theorem addToCart_counts_one item cartItems :
  cartOk cartItems →
  addToCart item cartItems = cartItems ∨
  getTotalItems (addToCart item cartItems) = getTotalItems cartItems + 1.
Proof.
  intros [Hnd Hq].
  unfold addToCart. destruct (menu_stock item) as [stock|]; [|by left].
  case_bool_decide as Hs; [by left|].
  destruct (list_find _ cartItems) as [[i existing]|] eqn:Hf.
  - case_bool_decide as He; [by left|]. right.
    apply list_find_Some in Hf as (Hi & Hei & _).
    rewrite getTotalItems_bump by done.
    rewrite bool_decide_eq_true_2; [done|].
    apply list_elem_of_fmap. exists existing. split; [done|].
    by apply list_elem_of_lookup_2 in Hi.
  - right. unfold getTotalItems at 1. rewrite foldl_app. cbn [foldl]. done.
Qed.

Lemma addToCart_counts_one_witness :
  getTotalItems (addToCart (mkMenuItem 7 "Vada" (Some 2))
                   [mkCartLine 7 "Vada" 2 1; mkCartLine 8 "Tea" 5 3]) = 5.
Proof.
  destruct (addToCart_counts_one (mkMenuItem 7 "Vada" (Some 2))
              [mkCartLine 7 "Vada" 2 1; mkCartLine 8 "Tea" 5 3]) as [H|H].
  - split.
    + cbn. apply NoDup_cons. split; [|apply NoDup_singleton].
      intros H%list_elem_of_singleton. discriminate H.
    + repeat constructor; cbn; lia.
  - discriminate H.
  - exact H.
Defined.

(** ** Writes and the mirrors *)

Lemma mirrorsAgree_writeEverywhere orders st :
  mirrorsAgree (writeEverywhere orders st) orders.
Proof.
  split.
  - intros key Hkey. by apply writeAll_lookup_key.
  - apply lookup_insert_eq.
Qed.

Lemma updateOrder_true_mirrors now code u st :
  (updateOrder now code u st).1 = true →
  ∃ orders, mirrorsAgree (updateOrder now code u st).2 orders.
Proof.
  rewrite updateOrder_eq. destruct (view now st !! code) as [cur|]; [|done].
  intros _. eexists. apply mirrorsAgree_writeEverywhere.
Qed.

(** X24: [saveOrder], a successful [updateOrder] and a successful
    [markCounterDelivered] leave the same map in all six mirrors, the five
    keys of [localStorage] and the session backup; for [saveOrder] and
    [updateOrder] it is the map that [getAllOrders] returns at the call,
    with the new record under the code. *)
Theorem writes_reach_every_mirror now st :
  (∀ origin orderData,
     mirrorsAgree (saveOrder now origin orderData st).2
       (<[propertyKey (order_code orderData)
          := orderWithOTP now origin orderData]> (getAllOrders now st).1)) ∧
  (∀ code updates current,
     (getAllOrders now st).1 !! code = Some current →
     mirrorsAgree (updateOrder now code updates st).2
       (<[code := set_updated_at now (spread current updates)]>
          (getAllOrders now st).1)) ∧
  (∀ code counterName deliveredItems,
     (markCounterDelivered now code counterName deliveredItems st).1 = true →
     ∃ orders,
       mirrorsAgree
         (markCounterDelivered now code counterName deliveredItems st).2
         orders).
Proof.
  rewrite getAllOrders_fst. split_and!.
  - intros origin orderData. rewrite saveOrder_snd.
    apply mirrorsAgree_writeEverywhere.
  - intros code u cur Hv. rewrite updateOrder_eq, Hv.
    apply mirrorsAgree_writeEverywhere.
  - intros code c ids. unfold markCounterDelivered.
    destruct (getOrderByCode now code st) as [[order|] st1]; [|done].
    apply updateOrder_true_mirrors.
Qed.


(** ** Requests that fail *)

(** X25: a request that fails changes nothing.  When [fetch] rejects
    or the body of the response is not JSON, [fetchOtpStatus] returns an
    answer for which [syncOrderStatusFromServer] returns the local copy
    as it is (or [null] without one) and changes nothing that a read
    shows. *)
Theorem failed_request_keeps_local_copy (now t : Z) outcome code st :
  outcome = FetchRejects ∨ outcome = BodyNotJson →
  now ≤ t →
  let r := syncOrderStatusFromServer now (fetchOtpStatus outcome) code st in
  r.1 = view now st !! code ∧ view t r.2 = view t st.
Proof.
  intros Ho Hle. cbv zeta.
  assert (Hu : ∀ cur, syncUpdates now (fetchOtpStatus outcome) cur = None)
    by (intros cur; by destruct Ho as [-> | ->]).
  assert (He : ∀ x, syncEntry now (fetchOtpStatus outcome) x = x).
  { intros [cur|]; [|done]. cbn [syncEntry]. by rewrite Hu. }
  split.
  - by rewrite syncOrderStatusFromServer_fst, He, purge1_view.
  - rewrite view_syncOrderStatusFromServer by done.
    rewrite partial_alter_fix by apply He. by apply view_later.
Qed.

Lemma failed_request_keeps_local_copy_witness :
  (syncOrderStatusFromServer 1500 (fetchOtpStatus FetchRejects) "TS1234"
     savedStorage).1
  = view 1500 savedStorage !! "TS1234".
Proof.
  refine (proj1 (failed_request_keeps_local_copy 1500 1500 FetchRejects
                   "TS1234" savedStorage _ _)).
  - by left.
  - lia.
Defined.

(** ** Confirming an order *)

Lemma confirmStep_nonempty acc item : (confirmStep acc item).1 ≠ ∅.
Proof. destruct acc as [g n]. cbn. apply insert_non_empty. Qed.

Lemma foldl_confirmStep_nonempty cartItems acc :
  cartItems ≠ [] → (foldl confirmStep acc cartItems).1 ≠ ∅.
Proof.
  intros Hne. destruct cartItems as [|item items _] using rev_ind; [done|].
  rewrite foldl_app. cbn [foldl]. apply confirmStep_nonempty.
Qed.

Lemma confirmStep_wellFormed acc item :
  invalidItem item = false →
  groupsWellFormed acc.1 acc.2 →
  groupsWellFormed (confirmStep acc item).1 (confirmStep acc item).2.
Proof.
  destruct acc as [g n]. intros Hv Hwf c items. cbn.
  unfold invalidItem in Hv. apply orb_false_iff in Hv as [_ Hq].
  apply bool_decide_eq_false in Hq.
  destruct (decide (c = confirmCounterId item)) as [->|Hc].
  - rewrite !lookup_insert_eq. intros [= <-]. split_and!.
    + intros H%(f_equal length). rewrite length_app in H. cbn in H. lia.
    + by eexists.
    + apply Forall_app. split.
      * destruct (g !! confirmCounterId item) as [l|] eqn:E.
        -- rewrite E. cbn. by apply (Hwf _ _ E).
        -- rewrite lookup_insert_eq. cbn. constructor.
      * apply Forall_singleton. cbn. split; [done|lia].
  - rewrite !lookup_insert_ne by done. intros Hg.
    assert (Hg' : g !! c = Some items).
    { destruct (g !! confirmCounterId item); [done|].
      by rewrite lookup_insert_ne in Hg. }
    exact (Hwf c items Hg').
Qed.

Lemma foldl_confirmStep_wellFormed cartItems acc :
  Forall (λ item, invalidItem item = false) cartItems →
  groupsWellFormed acc.1 acc.2 →
  groupsWellFormed (foldl confirmStep acc cartItems).1
                   (foldl confirmStep acc cartItems).2.
Proof.
  revert acc. induction cartItems as [|item items IH]; intros acc Hv Hwf;
    [done|].
  apply Forall_cons in Hv as [Hi Hv]. cbn [foldl]. apply IH; [done|].
  by apply confirmStep_wellFormed.
Qed.

(** X26: the dashboard never submits an order without counters.
    [handleConfirmOrder] cannot end with ['No valid counters found in
    cart']: past the checks of an empty cart and of invalid items, the
    payload has at least one counter group, and every group has a counter
    name and at least one item, each undelivered and with a positive
    quantity. *)
Theorem handleConfirmOrder_has_counters cartItems :
  handleConfirmOrder cartItems ≠ NoValidCounters ∧
  ∀ itemsByCounterId counterIdToName,
    handleConfirmOrder cartItems = Proceeds itemsByCounterId counterIdToName →
    cartItems ≠ [] ∧ itemsByCounterId ≠ ∅ ∧
    groupsWellFormed itemsByCounterId counterIdToName.
Proof.
  unfold handleConfirmOrder.
  case_bool_decide as He; [split; done|].
  assert (Hne : cartItems ≠ []) by (by destruct cartItems).
  case_bool_decide as Hi; [split; done|].
  pose proof (foldl_confirmStep_nonempty cartItems (∅, ∅) Hne) as Hg.
  assert (Hv : Forall (λ item, invalidItem item = false) cartItems).
  { apply Forall_forall. intros item Hin.
    destruct (invalidItem item) eqn:E; [|done]. exfalso. apply Hi.
    assert (Hf : item ∈ filter (λ item, invalidItem item = true) cartItems)
      by (by apply list_elem_of_filter).
    destruct (filter _ cartItems); [by apply elem_of_nil in Hf|cbn; lia]. }
  pose proof (foldl_confirmStep_wellFormed cartItems (∅, ∅) Hv) as Hwf.
  destruct (foldl confirmStep (∅, ∅) cartItems) as [groups names].
  cbn [fst snd] in *.
  rewrite bool_decide_eq_false_2.
  - split; [done|]. intros g n [= <- <-]. split_and!; [done..|].
    apply Hwf. intros c items. by rewrite lookup_empty.
  - rewrite Object_keys_length. by apply map_size_non_empty_iff.
Qed.

(** ** Lookups that only read *)

Lemma view_lookup_plain (now t : Z) code st :
  (∀ o, view now st !! code = Some o → truthy (otp_status o) = true) →
  now ≤ t →
  view t (getOrderByCode now code st).2 = view t st.
Proof.
  intros Hs Hle. rewrite view_getOrderByCode by done.
  rewrite partial_alter_fix; [by apply view_later|].
  destruct (view now st !! code) as [o|] eqn:E; [|done].
  cbn [lookupEntry]. by rewrite (Hs o eq_refl).
Qed.

(** X27: a lookup of an order that has an [otp_status] only reads.
    [getOrderByCode] of a code whose order has a truthy [otp_status], or
    that the store does not show, changes nothing that a later read
    returns. *)
Theorem lookup_only_reads (now t : Z) code st :
  (∀ o, view now st !! code = Some o → truthy (otp_status o) = true) →
  now ≤ t →
  view t (getOrderByCode now code st).2 = view t st.
Proof. apply view_lookup_plain. Qed.

Lemma lookup_only_reads_witness :
  view 3000 (getOrderByCode 2000 "TS1234" savedStorage).2
  = view 3000 savedStorage.
Proof.
  apply (lookup_only_reads 2000 3000 "TS1234" savedStorage).
  - intros o Ho.
    assert (H : view 2000 savedStorage !! "TS1234" ≫= otp_status
                = Some "active") by (vm_compute; reflexivity).
    rewrite Ho in H. cbn [mbind option_bind] in H. by rewrite H.
  - lia.
Defined.

Lemma generateLoop_only_reads fuel now random attempts st code n st' :
  noLegacy now st →
  generateLoop fuel now random attempts st = Some (code, n, st') →
  ∀ t, now ≤ t → view t st' = view t st.
Proof.
  revert attempts st.
  induction fuel as [|fuel IH]; intros attempts st Hno; [done|].
  cbn [generateLoop]. case_bool_decide as Hmax.
  - by intros [= <- <- <-].
  - pose proof (view_lookup_plain now) as Hl.
    specialize (Hl) with (code := drawCode (random attempts)) (st := st).
    destruct (getOrderByCode now (drawCode (random attempts)) st)
      as [[order|] st1]; cbn [snd] in Hl.
    + intros Hloop t Ht.
      assert (H1 : ∀ t, now ≤ t → view t st1 = view t st).
      { intros t0 Ht0. apply Hl; [|done]. intros o Ho. by eapply Hno. }
      assert (Hno1 : noLegacy now st1).
      { intros c o. rewrite (H1 now (Z.le_refl now)). apply Hno. }
      rewrite (IH _ _ Hno1 Hloop t Ht). by apply H1.
    + intros [= <- <- <-] t Ht. apply Hl; [|done].
      intros o Ho. by eapply Hno.
Qed.

(** X28: generating a code changes no order.  In a store without
    legacy records, every read after [generateOrderCode] returns what it
    would have returned without the call. *)
Theorem generateOrderCode_only_reads now random st code attempts st' t :
  noLegacy now st →
  generateOrderCode now random st = Some (code, attempts, st') →
  now ≤ t →
  view t st' = view t st.
Proof.
  intros Hno Hgen Ht. by eapply generateLoop_only_reads.
Qed.

Lemma generateOrderCode_only_reads_witness :
  ∃ code attempts st',
    generateOrderCode 1730000005000 sameDraw fallbackStorage
    = Some (code, attempts, st') ∧
    view 1730000005000 st' = view 1730000005000 fallbackStorage.
Proof.
  destruct (generateOrderCode 1730000005000 sameDraw fallbackStorage)
    as [[[code n] st']|] eqn:E.
  - exists code, n, st'. split; [reflexivity|].
    apply (generateOrderCode_only_reads 1730000005000 sameDraw
             fallbackStorage code n st' 1730000005000); [|exact E|lia].
    intros c o Ho.
    assert (Hc : c = "OR5000").
    { destruct (decide (c = "OR5000")) as [|Hne]; [done|]. exfalso.
      unfold fallbackStorage in Ho.
      rewrite view_saveOrder, lookup_purge, lookup_insert_ne in Ho
        by (cbn; congruence).
      assert (He : mergeAll emptyStorage = ∅) by reflexivity.
      rewrite lookup_view, He, lookup_empty in Ho. discriminate Ho. }
    subst c.
    assert (H : view 1730000005000 fallbackStorage !! "OR5000" ≫= otp_status
                = Some "active") by (vm_compute; reflexivity).
    rewrite Ho in H. cbn [mbind option_bind] in H. by rewrite H.
  - apply (f_equal (fmap (λ r : string * nat * Storage, r.1.2))) in E.
    vm_compute in E. discriminate E.
Defined.
